(** * The UART command console of CommandLineInterface.c

    A shallow embedding of [prvSendBuffer] and [prvUARTCommandConsoleTask]
    (Core/Src/CommandLineInterface.c) and the properties of the line editor,
    the dispatch loop and the paced transmitter.

    - The two static arrays [cInputString] and [cLastInputString] are lists
      of [cmdMAX_INPUT_SIZE] bytes; every access outside an array is a
      [Fault], as it is undefined behaviour in C.
    - [ucInputIndex] is a [uint8_t]: a [Z] whose increments and decrements
      are reduced modulo 256.
    - The HAL, the kernel and the FreeRTOS+CLI interpreter are not part of
      the file; they are the fields of the class [Platform].  What the task
      asks of them is recorded, in order, in the [uart] trace of the state.
    - The [do ... while] around the interpreter may not terminate; it takes
      fuel, and running out of it is the outcome [OutOfFuel].
    - The length handed to [HAL_UART_Transmit_IT] is recorded as the
      [uint16_t] that function takes. *)

From Stdlib Require Import ZArith Ascii String DecimalString.
From stdpp Require Import base list.

Local Open Scope Z_scope.

(** ** Characters *)

Definition NUL : ascii := "000"%char.
Definition BS : ascii := "008"%char.
Definition LF : ascii := "010"%char.
Definition CR : ascii := "013"%char.
Definition cmdASCII_DEL : ascii := "127"%char.

(** Dimensions the buffer into which input characters are placed. *)
Definition cmdMAX_INPUT_SIZE : Z := 50.

Definition pdFALSE : Z := 0.
Definition pdTRUE : Z := 1.
Definition pdPASS : Z := 1.

(** [(cRxedChar >= ' ') && (cRxedChar <= '~')].  A byte above 0x7F fails
    the test whether [char] is signed (first conjunct) or not (second). *)
Definition printable (c : ascii) : bool :=
  (" " <=? c)%char && (c <=? "~")%char.

Definition is_terminator (c : ascii) : bool :=
  (c =? LF)%char || (c =? CR)%char.

Definition is_backspace (c : ascii) : bool :=
  (c =? BS)%char || (c =? cmdASCII_DEL)%char.

(** ** C strings in arrays *)

(** Number of bytes in front of the first NUL, or the length of the list
    when it holds none. *)
Fixpoint strlen (s : list ascii) : nat :=
  match s with
  | [] => 0%nat
  | c :: s' => if (c =? NUL)%char then 0%nat else S (strlen s')
  end.

(** An array holds a C string when a NUL lies inside it. *)
Definition terminated (buf : list ascii) : bool :=
  (strlen buf <? length buf)%nat.

Definition c_string (buf : list ascii) : list ascii := take (strlen buf) buf.

Definition crlf : list ascii := [CR; LF].

Definition pcWelcomeMessage : list ascii :=
  crlf ++ crlf ++ list_ascii_of_string "FreeRTOS command server." ++ crlf
  ++ list_ascii_of_string "Type Help to view a list of registered commands."
  ++ crlf ++ crlf ++ list_ascii_of_string ">".

Definition pcEndOfOutputMessage : list ascii :=
  crlf
  ++ list_ascii_of_string "[Press ENTER to execute the previous command again]"
  ++ crlf ++ list_ascii_of_string ">".

Definition pcNewLine : list ascii := crlf.

(** ** What the task asks of its environment *)

Inductive semaphore := xTxCompleteSemaphore | xRxCompleteSemaphore.

Inductive event :=
| EvReceive_IT (Size : nat)                 (* HAL_UART_Receive_IT(&huart3, &cRxedChar, Size) *)
| EvTransmit_IT (pData : list ascii) (Size : nat) (* HAL_UART_Transmit_IT(&huart3, pData, Size) *)
| EvSemaphoreTake (s : semaphore) (ticks : Z) (* xSemaphoreTake(s, ticks) *)
| EvProcessCommand (line : list ascii).     (* FreeRTOS_CLIProcessCommand(line, ...) *)

(** The collaborators of the console.  [FreeRTOS_CLIProcessCommand] is given
    its own state, the command line, and the string the output buffer holds;
    it returns its new state, the string it leaves in the output buffer (in
    front of the NUL that ends it) and [xReturned].  [tx_signalled] tells,
    from what happened so far, whether the Tx complete semaphore is given
    before a wait on it times out.

    [portTICK_PERIOD_MS] is the port's constant 1000 / configTICK_RATE_HZ.
    [prvSendBuffer] divides by it (line 345) before it does anything else,
    so a tick rate above 1000 Hz, which makes the constant 0, leaves no call
    of [prvSendBuffer] with a defined behaviour: a platform has a positive
    tick period. *)
Class Platform := {
  CLI : Type;
  FreeRTOS_CLIProcessCommand : CLI → list ascii → list ascii → Z → CLI * list ascii * Z;
  configCOMMAND_INT_MAX_OUTPUT_SIZE : Z;
  portTICK_PERIOD_MS : Z;
  portTICK_PERIOD_MS_positive : 0 < portTICK_PERIOD_MS;
  portMAX_DELAY : Z;
  tx_signalled : list event → bool
}.

Inductive fault := ReadOutOfBounds | WriteOutOfBounds.

Inductive outcome (A : Type) :=
| Ok (a : A)
| Fault (f : fault)
| OutOfFuel.
Arguments Ok {A} a.
Arguments Fault {A} f.
Arguments OutOfFuel {A}.

Section Console.
Context `{P : Platform}.

(** The variables of [prvUARTCommandConsoleTask], the interpreter's output
    buffer and state, and the trace. *)
Record console := Console {
  ucInputIndex : Z;
  cInputString : list ascii;
  cLastInputString : list ascii;
  pcOutputString : list ascii;
  cli : CLI;
  uart : list event
}.

(** ** State, faults and fuel *)

Definition M (A : Type) : Type := console → outcome A * console.

Definition ret {A} (a : A) : M A := λ w, (Ok a, w).

Definition bind {A B} (m : M A) (k : A → M B) : M B :=
  λ w, match m w with
       | (Ok a, w') => k a w'
       | (Fault f, w') => (Fault f, w')
       | (OutOfFuel, w') => (OutOfFuel, w')
       end.

Definition raise {A} (f : fault) : M A := λ w, (Fault f, w).
Definition out_of_fuel {A} : M A := λ w, (OutOfFuel, w).

Definition emit (e : event) : M unit :=
  λ w, (Ok tt, Console (ucInputIndex w) (cInputString w) (cLastInputString w)
                       (pcOutputString w) (cli w) (uart w ++ [e])).

Definition get {A} (f : console → A) : M A := λ w, (Ok (f w), w).

Definition set_ucInputIndex (i : Z) : M unit :=
  λ w, (Ok tt, Console i (cInputString w) (cLastInputString w)
                       (pcOutputString w) (cli w) (uart w)).

Definition set_cInputString (b : list ascii) : M unit :=
  λ w, (Ok tt, Console (ucInputIndex w) b (cLastInputString w)
                       (pcOutputString w) (cli w) (uart w)).

Definition set_cLastInputString (b : list ascii) : M unit :=
  λ w, (Ok tt, Console (ucInputIndex w) (cInputString w) b
                       (pcOutputString w) (cli w) (uart w)).

Definition set_interpreter (s : CLI) (o : list ascii) : M unit :=
  λ w, (Ok tt, Console (ucInputIndex w) (cInputString w) (cLastInputString w)
                       o s (uart w)).

End Console.

Notation "x <- m ;; k" := (bind m (λ x, k))
  (at level 20, m at level 99, k at level 200, only parsing).
Notation "m ;; k" := (bind m (λ _, k))
  (at level 100, k at level 200, right associativity, only parsing).

Section Task.
Context `{P : Platform}.

(** ** Array accesses *)

(** [buf[i] = c] *)
Definition store (buf : list ascii) (i : Z) (c : ascii) : M (list ascii) :=
  if (0 <=? i) && (i <? Z.of_nat (length buf))
  then ret (<[Z.to_nat i := c]> buf)
  else raise WriteOutOfBounds.

(** The string an array holds, read up to its NUL. *)
Definition read_string (buf : list ascii) : M (list ascii) :=
  if terminated buf then ret (c_string buf) else raise ReadOutOfBounds.

(** [strcpy(dst, src)]: the bytes of [src] up to and including the first
    NUL overwrite the start of [dst]. *)
Definition strcpy (dst src : list ascii) : M (list ascii) :=
  s <- read_string src ;;
  if (length s + 1 <=? length dst)%nat
  then ret (s ++ NUL :: drop (length s + 1) dst)
  else raise WriteOutOfBounds.

(** [memset(dst, c, n)] *)
Definition memset (dst : list ascii) (c : ascii) (n : Z) : M (list ascii) :=
  if n <=? Z.of_nat (length dst)
  then ret (replicate (Z.to_nat n) c ++ drop (Z.to_nat n) dst)
  else raise WriteOutOfBounds.

(** ** prvSendBuffer *)

(** [xSemaphoreTake(s, ticks)]; [given] is the answer of the kernel:
    whether the semaphore was given before the wait timed out. *)
Definition xSemaphoreTake (s : semaphore) (ticks : Z) (given : bool) : M Z :=
  emit (EvSemaphoreTake s ticks) ;;
  ret (if given then pdTRUE else pdFALSE).

(** [const TickType_t xBlockMax100ms = 100UL / portTICK_PERIOD_MS;], the
    first thing [prvSendBuffer] computes; the divisor is positive on every
    platform. *)
Definition xBlockMax100ms : Z := 100 / portTICK_PERIOD_MS.

(** [HAL_UART_Transmit_IT] is declared by the HAL driver, not in this file:
    [HAL_UART_Transmit_IT(UART_HandleTypeDef *huart, const uint8_t *pData,
    uint16_t Size)].  The call of line 349 converts the [size_t] length to
    that [uint16_t]. *)
Definition uint16_t (n : nat) : nat := Z.to_nat (Z.of_nat n mod 65536).

Definition prvSendBuffer (pcBuffer : list ascii) (xBufferLength : nat) : M unit :=
  if (0 <? xBufferLength)%nat then
    emit (EvTransmit_IT pcBuffer (uint16_t xBufferLength)) ;;
    (* Wait for the Tx to complete; what the wait returns is dropped. *)
    history <- get uart ;;
    _ <- xSemaphoreTake xTxCompleteSemaphore xBlockMax100ms (tx_signalled history) ;;
    ret tt
  else ret tt.

(** ** prvUARTCommandConsoleTask *)

(** [do { xReturned = FreeRTOS_CLIProcessCommand(cInputString, pcOutputString, ...);
         prvSendBuffer(pcOutputString, strlen(pcOutputString)); }
    while (xReturned != pdFALSE);]
    The interpreter is handed the array cInputString, whatever it holds,
    and is given as its command line the bytes of the array in front of the
    first NUL: all of them when the array holds no NUL.  (What an
    interpreter reads behind the array then is not of this file; the first
    read past the end that the task does itself is the [strcpy] of
    [remember_and_clear].) *)
Fixpoint dispatch (fuel : nat) : M unit :=
  match fuel with
  | O => out_of_fuel
  | S fuel' =>
    buf <- get cInputString ;;
    let line := c_string buf in
    emit (EvProcessCommand line) ;;
    s <- get cli ;;
    o <- get pcOutputString ;;
    let '(s', o', xReturned) :=
      FreeRTOS_CLIProcessCommand s line o configCOMMAND_INT_MAX_OUTPUT_SIZE in
    set_interpreter s' o' ;;
    prvSendBuffer o' (strlen o') ;;
    if xReturned =? pdFALSE then ret tt else dispatch fuel'
  end.

(** [if (ucInputIndex == 0) strcpy(cInputString, cLastInputString);] *)
Definition recall_last : M unit :=
  i <- get ucInputIndex ;;
  if i =? 0 then
    dst <- get cInputString ;;
    src <- get cLastInputString ;;
    b <- strcpy dst src ;;
    set_cInputString b
  else ret tt.

(** [strcpy(cLastInputString, cInputString); ucInputIndex = 0;
    memset(cInputString, 0x00, cmdMAX_INPUT_SIZE);] *)
Definition remember_and_clear : M unit :=
  dst <- get cLastInputString ;;
  src <- get cInputString ;;
  b <- strcpy dst src ;;
  set_cLastInputString b ;;
  set_ucInputIndex 0 ;;
  buf <- get cInputString ;;
  z <- memset buf NUL cmdMAX_INPUT_SIZE ;;
  set_cInputString z.

(** The branch taken when the received character ends the line. *)
Definition end_of_line (fuel : nat) : M unit :=
  prvSendBuffer pcNewLine (strlen pcNewLine) ;;
  recall_last ;;
  dispatch fuel ;;
  remember_and_clear ;;
  prvSendBuffer pcEndOfOutputMessage (strlen pcEndOfOutputMessage).

(** The branch taken by every other character. *)
Definition edit_line (cRxedChar : ascii) : M unit :=
  if (cRxedChar =? CR)%char then
    ret tt
  else if (cRxedChar =? BS)%char || (cRxedChar =? cmdASCII_DEL)%char then
    i <- get ucInputIndex ;;
    if 0 <? i then
      let i' := (i - 1) mod 256 in
      set_ucInputIndex i' ;;
      buf <- get cInputString ;;
      b <- store buf i' NUL ;;
      set_cInputString b
    else ret tt
  else if (" " <=? cRxedChar)%char && (cRxedChar <=? "~")%char then
    i <- get ucInputIndex ;;
    if i <? cmdMAX_INPUT_SIZE then
      buf <- get cInputString ;;
      b <- store buf i cRxedChar ;;
      set_cInputString b ;;
      set_ucInputIndex ((i + 1) mod 256)
    else ret tt
  else ret tt.

(** One turn of the [for (;;)] loop.  [rx] is the character the receive
    delivered, or [None] when the wait on the Rx semaphore returned without
    one. *)
Definition iteration (fuel : nat) (rx : option ascii) : M unit :=
  emit (EvReceive_IT 1) ;;
  taken <- xSemaphoreTake xRxCompleteSemaphore portMAX_DELAY (bool_decide (is_Some rx)) ;;
  match rx with
  | Some cRxedChar =>
    if taken =? pdPASS then
      (* Echo the character back. *)
      prvSendBuffer [cRxedChar] 1 ;;
      if (cRxedChar =? LF)%char || (cRxedChar =? CR)%char
      then end_of_line fuel
      else edit_line cRxedChar
    else ret tt
  | None => ret tt
  end.

Fixpoint serve (fuel : nat) (rx : list (option ascii)) : M unit :=
  match rx with
  | [] => ret tt
  | r :: rx' => iteration fuel r ;; serve fuel rx'
  end.

(** The code in front of the [for (;;)] loop. *)
Definition startup : M unit :=
  (* vSemaphoreCreateBinary leaves a semaphore available. *)
  _ <- xSemaphoreTake xTxCompleteSemaphore 0 true ;;
  _ <- xSemaphoreTake xRxCompleteSemaphore 0 true ;;
  prvSendBuffer pcWelcomeMessage (strlen pcWelcomeMessage).

Definition prvUARTCommandConsoleTask (fuel : nat) (rx : list (option ascii)) : M unit :=
  startup ;; serve fuel rx.

(** The statics are zero at start. *)
Definition power_on (s : CLI) : console :=
  Console 0 (replicate (Z.to_nat cmdMAX_INPUT_SIZE) NUL)
            (replicate (Z.to_nat cmdMAX_INPUT_SIZE) NUL) [] s [].

End Task.

(** ** Reading the trace *)

Definition capacity : nat := Z.to_nat cmdMAX_INPUT_SIZE.

Section Observations.
Context `{P : Platform}.

(** [w] with the events [tr] added to its trace. *)
Definition log (tr : list event) (w : console) : console :=
  Console (ucInputIndex w) (cInputString w) (cLastInputString w)
          (pcOutputString w) (cli w) (uart w ++ tr).

(** What one call [prvSendBuffer(buf, n)] asks of the UART. *)
Definition transmission (buf : list ascii) (n : nat) : list event :=
  match n with
  | O => []
  | S _ => [EvTransmit_IT buf (uint16_t n);
            EvSemaphoreTake xTxCompleteSemaphore (100 / portTICK_PERIOD_MS)]
  end.

(** What the turns of the dispatch loop on [line] ask of the environment,
    when the interpreter leaves the strings [outs], one a call, in the output
    buffer: each call is followed by one [prvSendBuffer] of its string. *)
Definition dispatch_trace (line : list ascii) (outs : list (list ascii)) : list event :=
  flat_map (λ o, EvProcessCommand line :: transmission o (strlen o)) outs.

(** [m] only adds to the trace. *)
Definition extends {A} (m : M A) : Prop :=
  ∀ w, ∃ rest, uart (m w).2 = uart w ++ rest.

(** The command lines handed to the interpreter, in call order. *)
Definition commands (tr : list event) : list (list ascii) :=
  omap (λ e, match e with EvProcessCommand l => Some l | _ => None end) tr.

(** The characters typed so far: the bytes below [ucInputIndex]. *)
Definition stored (w : console) : list ascii :=
  take (Z.to_nat (ucInputIndex w)) (cInputString w).

(** An input array that holds [line] and zeros behind it. *)
Definition padded (line : list ascii) : list ascii :=
  line ++ replicate (capacity - length line) NUL.

(** The state between two turns of the loop, [line] typed so far. *)
Definition typing (line last o : list ascii) (s : CLI) (tr : list event) : console :=
  Console (Z.of_nat (length line)) (padded line) last o s tr.

(** The line a terminator dispatches: the one typed, or the last one when
    nothing was typed. *)
Definition dispatched_line (line last : list ascii) : list ascii :=
  match line with
  | [] => c_string last
  | _ :: _ => line
  end.

(** What one received character asks of the environment before it is looked
    at: the receive, the wait for it, and the echo. *)
Definition reception (c : ascii) : list event :=
  [EvReceive_IT 1; EvSemaphoreTake xRxCompleteSemaphore portMAX_DELAY;
   EvTransmit_IT [c] 1;
   EvSemaphoreTake xTxCompleteSemaphore (100 / portTICK_PERIOD_MS)].

Record well_formed (line last : list ascii) : Prop := {
  wf_line : Forall printable line;
  wf_length : (length line ≤ capacity)%nat;
  wf_last_size : length last = capacity;
  wf_last_terminated : terminated last;
  wf_last_printable : Forall printable (c_string last)
}.

Record invariant (w : console) : Prop := {
  inv_index : 0 ≤ ucInputIndex w ≤ cmdMAX_INPUT_SIZE;
  inv_size : length (cInputString w) = capacity;
  inv_printable : Forall printable (stored w);
  inv_zeros : drop (Z.to_nat (ucInputIndex w)) (cInputString w)
              = replicate (capacity - Z.to_nat (ucInputIndex w)) NUL;
  inv_last_size : length (cLastInputString w) = capacity;
  inv_last_terminated : terminated (cLastInputString w);
  inv_last_printable : Forall printable (c_string (cLastInputString w))
}.

(** What holds of the input line at every moment, also inside a dispatch. *)
Record line_invariant (w : console) : Prop := {
  line_index : 0 ≤ ucInputIndex w ≤ cmdMAX_INPUT_SIZE;
  line_size : length (cInputString w) = capacity;
  line_printable : Forall printable (stored w);
  line_bytes : Forall (λ c, printable c ∨ c = NUL) (cInputString w)
}.

(** The interpreter, called again and again on [line], returns something
    other than [pdFALSE] exactly [n] times and then [pdFALSE]. *)
Fixpoint has_more (n : nat) (s : CLI) (line o : list ascii) : Prop :=
  let '(s', o', xReturned) :=
    FreeRTOS_CLIProcessCommand s line o configCOMMAND_INT_MAX_OUTPUT_SIZE in
  match n with
  | O => xReturned = pdFALSE
  | S n' => xReturned ≠ pdFALSE ∧ has_more n' s' line o'
  end.

(** The interpreter after [n] calls on [line]: its state and the string in
    the output buffer. *)
Fixpoint after_calls (n : nat) (s : CLI) (line o : list ascii) : CLI * list ascii :=
  match n with
  | O => (s, o)
  | S n' =>
    let '(s', o', _) :=
      FreeRTOS_CLIProcessCommand s line o configCOMMAND_INT_MAX_OUTPUT_SIZE in
    after_calls n' s' line o'
  end.

(** The strings the first [n] calls on [line] leave in the output buffer. *)
Fixpoint chunks (n : nat) (s : CLI) (line o : list ascii) : list (list ascii) :=
  match n with
  | O => []
  | S n' =>
    let '(s', o', _) :=
      FreeRTOS_CLIProcessCommand s line o configCOMMAND_INT_MAX_OUTPUT_SIZE in
    o' :: chunks n' s' line o'
  end.

End Observations.

(** ** The line editor as the specification words it

    Backspace or delete removes the last character if there is one; a
    printable character is appended below the capacity and dropped at it;
    every other character changes nothing. *)

Definition spec_feed (line : list ascii) (c : ascii) : list ascii :=
  if is_backspace c then take (length line - 1) line
  else if printable c then
    if (length line <? capacity)%nat then line ++ [c] else line
  else line.

Definition spec_edit (line : list ascii) (cs : list ascii) : list ascii :=
  foldl spec_feed line cs.

(** ** A platform to run the console on

    An interpreter that answers a command with [pages] chunks, each the
    command line followed by CR LF, and then an empty last chunk; its
    state counts the chunks given so far. *)

Definition paged (pages : nat) (k : nat) (line o : list ascii) (size : Z)
  : nat * list ascii * Z :=
  if (k <? pages)%nat then (S k, line ++ crlf, pdTRUE) else (0%nat, [], pdFALSE).

Definition bench (pages : nat) : Platform := {|
  CLI := nat;
  FreeRTOS_CLIProcessCommand := paged pages;
  configCOMMAND_INT_MAX_OUTPUT_SIZE := 128;
  portTICK_PERIOD_MS := 1;
  portTICK_PERIOD_MS_positive := eq_refl;
  portMAX_DELAY := 4294967295;
  tx_signalled := λ history, Nat.even (length history)
|}.

Definition keys (s : string) : list (option ascii) :=
  Some <$> list_ascii_of_string s.

(** The task on the bench, from power on. *)
Definition run_bench (pages fuel : nat) (rx : list (option ascii))
  : outcome unit * @console (bench pages) :=
  @prvUARTCommandConsoleTask (bench pages) fuel rx (@power_on (bench pages) 0%nat).

(** ** The command handlers

    The four handlers registered by [CommandLineInterfaceStart].  The write
    buffer is an array of bytes; the handlers do not check its length (the
    source says so), and a write past its end is a trap.  What
    FreeRTOS_CLIGetParameter and the two kernel listings do is not part of
    the file: they are the fields of [Services]. *)

Module Commands.

Inductive trap :=
| AssertFailed                 (* configASSERT on a null pointer *)
| OutOfBounds (f : fault)      (* an access outside the write buffer *)
| SignedOverflow.              (* lParameterNumber++ at its largest value *)

Inductive result (A : Type) :=
| Returns (a : A)
| Traps (t : trap).
Arguments Returns {A} a.
Arguments Traps {A} t.

Definition bind {A B} (m : result A) (k : A → result B) : result B :=
  match m with
  | Returns a => k a
  | Traps t => Traps t
  end.

(** [FreeRTOS_CLIGetParameter(pcCommandString, uxWantedParameter, &length)]
    answers with the string at the pointer it returns and the length it
    stores, or with [None] for a null pointer.  [vTaskList] and
    [vTaskGetRunTimeStats] are the strings the kernel writes. *)
Class Services := {
  FreeRTOS_CLIGetParameter : list ascii → Z → option (list ascii * nat);
  vTaskList : list ascii;
  vTaskGetRunTimeStats : list ascii
}.

(** portBASE_TYPE is [long], and [long] and [int] have 32 bits on the
    Cortex-M7 the file is written for. *)
Definition LONG_MAX : Z := 2147483647.

(** The characters [printf("%d")] gives. *)
Definition decimal (n : Z) : list ascii :=
  list_ascii_of_string (NilZero.string_of_int (Z.to_int n)).

(** The characters [text] and a NUL behind them, written at [dst + offset]. *)
Definition put (dst : list ascii) (offset : nat) (text : list ascii)
  : result (list ascii) :=
  if (offset + length text + 1 <=? length dst)%nat
  then Returns (take offset dst ++ text ++ NUL :: drop (offset + length text + 1) dst)
  else Traps (OutOfBounds WriteOutOfBounds).

(** [strcpy(dst, src)], [src] a string. *)
Definition strcpy (dst src : list ascii) : result (list ascii) :=
  put dst 0 (c_string src).

(** [sprintf(dst, ...)], [text] the characters the format gives. *)
Definition sprintf (dst text : list ascii) : result (list ascii) :=
  put dst 0 text.

(** [strncat(dst, src, n)]: at most [n] characters of the string [src] and
    a NUL, written over the NUL that ends [dst]. *)
Definition strncat (dst src : list ascii) (n : nat) : result (list ascii) :=
  if terminated dst
  then put dst (strlen dst) (take n (c_string src))
  else Traps (OutOfBounds ReadOutOfBounds).

(** [memset(dst, c, n)] *)
Definition memset (dst : list ascii) (c : ascii) (n : nat) : result (list ascii) :=
  if (n <=? length dst)%nat
  then Returns (replicate n c ++ drop n dst)
  else Traps (OutOfBounds WriteOutOfBounds).

(** [lParameterNumber++] *)
Definition increment (l : Z) : result Z :=
  if l <? LONG_MAX then Returns (l + 1) else Traps SignedOverflow.

Definition pcHeader_task_stats : list ascii :=
  list_ascii_of_string "Task          State  Priority  Stack" ++ ["009"%char]
  ++ list_ascii_of_string "#" ++ crlf
  ++ list_ascii_of_string "************************************************" ++ crlf.

Definition pcHeader_run_time_stats : list ascii :=
  list_ascii_of_string "Task            Abs Time      % Time" ++ crlf
  ++ list_ascii_of_string "****************************************" ++ crlf.

Definition three_parameters_header : list ascii :=
  list_ascii_of_string "The three parameters were:" ++ crlf.

Definition parameters_header : list ascii :=
  list_ascii_of_string "The parameters were:" ++ crlf.

Section Handlers.
Context `{K : Services}.

Notation "x <~ m ;; k" := (bind m (λ x, k))
  (at level 20, m at level 99, k at level 200, only parsing).

(** A handler is given [pcWriteBuffer], [xWriteBufferLen] and
    [pcCommandString], and returns the write buffer and [xReturn]. *)
Definition prvTaskStatsCommand (pcWriteBuffer : list ascii) (xWriteBufferLen : nat)
    (pcCommandString : list ascii) : result (list ascii * Z) :=
  b <~ strcpy pcWriteBuffer pcHeader_task_stats ;;
  (* vTaskList(pcWriteBuffer + strlen(pcHeader)) *)
  b' <~ put b (strlen pcHeader_task_stats) (c_string vTaskList) ;;
  Returns (b', pdFALSE).

Definition prvRunTimeStatsCommand (pcWriteBuffer : list ascii) (xWriteBufferLen : nat)
    (pcCommandString : list ascii) : result (list ascii * Z) :=
  b <~ strcpy pcWriteBuffer pcHeader_run_time_stats ;;
  (* vTaskGetRunTimeStats(pcWriteBuffer + strlen(pcHeader)) *)
  b' <~ put b (strlen pcHeader_run_time_stats) (c_string vTaskGetRunTimeStats) ;;
  Returns (b', pdFALSE).

(** The two echo handlers keep [lParameterNumber], a static, between
    calls: it is given and returned. *)
Definition prvThreeParameterEchoCommand (lParameterNumber : Z)
    (pcWriteBuffer : list ascii) (xWriteBufferLen : nat)
    (pcCommandString : list ascii) : result (Z * list ascii * Z) :=
  if lParameterNumber =? 0 then
    b <~ sprintf pcWriteBuffer three_parameters_header ;;
    Returns (1, b, pdPASS)
  else
    match FreeRTOS_CLIGetParameter pcCommandString lParameterNumber with
    | None => Traps AssertFailed
    | Some (pcParameter, xParameterStringLength) =>
      b0 <~ memset pcWriteBuffer NUL xWriteBufferLen ;;
      b1 <~ sprintf b0 (decimal lParameterNumber ++ list_ascii_of_string ": ") ;;
      b2 <~ strncat b1 pcParameter xParameterStringLength ;;
      b3 <~ strncat b2 crlf (strlen crlf) ;;
      if lParameterNumber =? 3 then Returns (0, b3, pdFALSE)
      else
        l <~ increment lParameterNumber ;;
        Returns (l, b3, pdTRUE)
    end.

Definition prvParameterEchoCommand (lParameterNumber : Z)
    (pcWriteBuffer : list ascii) (xWriteBufferLen : nat)
    (pcCommandString : list ascii) : result (Z * list ascii * Z) :=
  if lParameterNumber =? 0 then
    b <~ sprintf pcWriteBuffer parameters_header ;;
    Returns (1, b, pdPASS)
  else
    match FreeRTOS_CLIGetParameter pcCommandString lParameterNumber with
    | Some (pcParameter, xParameterStringLength) =>
      b0 <~ memset pcWriteBuffer NUL xWriteBufferLen ;;
      b1 <~ sprintf b0 (decimal lParameterNumber ++ list_ascii_of_string ": ") ;;
      b2 <~ strncat b1 pcParameter xParameterStringLength ;;
      b3 <~ strncat b2 crlf (strlen crlf) ;;
      l <~ increment lParameterNumber ;;
      Returns (l, b3, pdTRUE)
    | None =>
      (* pcWriteBuffer[0] = 0x00 *)
      match pcWriteBuffer with
      | [] => Traps (OutOfBounds WriteOutOfBounds)
      | _ :: rest => Returns (0, NUL :: rest, pdFALSE)
      end
    end.

(** The strings and values the first [n] calls of an echo handler give,
    the static and the buffer behind them. *)
Fixpoint responses
    (handler : Z → list ascii → nat → list ascii → result (Z * list ascii * Z))
    (n : nat) (l : Z) (buf : list ascii) (len : nat) (cmd : list ascii)
  : result (list (list ascii * Z) * Z * list ascii) :=
  match n with
  | O => Returns ([], l, buf)
  | S n' =>
    r <~ handler l buf len cmd ;;
    let '(l', b, xReturn) := r in
    rest <~ responses handler n' l' b len cmd ;;
    let '(rs, l'', b') := rest in
    Returns ((c_string b, xReturn) :: rs, l'', b')
  end.

(** The line an echo handler writes for parameter [i]. *)
Definition echo_line (i : Z) (pcParameter : list ascii) (n : nat) : list ascii :=
  decimal i ++ list_ascii_of_string ": " ++ take n (c_string pcParameter) ++ crlf.

End Handlers.

End Commands.

(** A string with no NUL among its characters. *)
Definition no_NUL (s : list ascii) : Prop := Forall (λ c, c ≠ NUL) s.

(** A stand-in for FreeRTOS_CLIGetParameter on the bench: a command has [k]
    parameters, and parameter [i] is its [i]-th character. *)
Definition bench_parameter (k : nat) (cmd : list ascii) (i : Z)
  : option (list ascii * nat) :=
  if (1 <=? i) && (i <=? Z.of_nat k)
  then Some (drop (Z.to_nat (i - 1)) cmd, 1%nat)
  else None.

Definition bench_services (k : nat) : Commands.Services := {|
  Commands.FreeRTOS_CLIGetParameter := bench_parameter k;
  Commands.vTaskList := list_ascii_of_string "CLI R 1";
  Commands.vTaskGetRunTimeStats := list_ascii_of_string "CLI 10 99%"
|}.

(** Runs the state plumbing of the monad. *)
Ltac run :=
  unfold bind, get, ret, emit, raise, out_of_fuel, set_ucInputIndex,
    set_cInputString, set_cLastInputString, set_interpreter, log;
  cbn [ucInputIndex cInputString cLastInputString pcOutputString cli uart].

(** The invariant of a state given in full. *)
Ltac concrete_invariant :=
  split;
  [ vm_compute; split; discriminate
  | reflexivity
  | vm_compute; repeat constructor
  | reflexivity
  | reflexivity
  | vm_compute; exact I
  | vm_compute; repeat constructor ].

(** * Properties *)

(** ** Characters *)

Lemma printable_not_NUL c : printable c → c ≠ NUL.
Proof. intros H ->. exact H. Qed.

Lemma printable_eqb_NUL c : printable c → (c =? NUL)%char = false.
Proof.
  intros H. apply Ascii.eqb_neq. by apply printable_not_NUL.
Qed.

Lemma printable_not_terminator c : printable c → is_terminator c = false.
Proof.
  intros H. unfold is_terminator.
  destruct (Ascii.eqb_spec c LF) as [->|_]; [done|].
  destruct (Ascii.eqb_spec c CR) as [->|_]; done.
Qed.

Lemma printable_not_backspace c : printable c → is_backspace c = false.
Proof.
  intros H. unfold is_backspace.
  destruct (Ascii.eqb_spec c BS) as [->|_]; [done|].
  destruct (Ascii.eqb_spec c cmdASCII_DEL) as [->|_]; done.
Qed.

Lemma backspace_not_terminator c : is_backspace c → is_terminator c = false.
Proof.
  unfold is_backspace, is_terminator.
  destruct (Ascii.eqb_spec c BS) as [E|_]; [by rewrite E|].
  destruct (Ascii.eqb_spec c cmdASCII_DEL) as [E|_]; [by rewrite E|done].
Qed.

(** The test of line 434 sits under the negation of the test of line 399:
    it never succeeds. *)
Lemma not_terminator_not_CR c : is_terminator c = false → (c =? CR)%char = false.
Proof. unfold is_terminator. intros [_ H]%orb_false_iff. exact H. Qed.

(** ** C strings *)

Lemma strlen_le s : (strlen s ≤ length s)%nat.
Proof.
  induction s as [|c s IH]; simpl; [lia|].
  destruct (c =? NUL)%char; lia.
Qed.

Lemma strlen_printable s : Forall printable s → strlen s = length s.
Proof.
  induction 1 as [|c s Hc _ IH]; simpl; [done|].
  by rewrite (printable_eqb_NUL c Hc), IH.
Qed.

Lemma strlen_app_NUL s t : Forall printable s → strlen (s ++ NUL :: t) = length s.
Proof.
  induction 1 as [|c s Hc _ IH]; simpl; [done|].
  by rewrite (printable_eqb_NUL c Hc), IH.
Qed.

Lemma c_string_app_NUL s t : Forall printable s → c_string (s ++ NUL :: t) = s.
Proof.
  intros H. unfold c_string. rewrite strlen_app_NUL by done.
  by rewrite take_app_length.
Qed.

Lemma terminated_app_NUL s t : Forall printable s → terminated (s ++ NUL :: t).
Proof.
  intros H. unfold terminated. rewrite strlen_app_NUL by done.
  rewrite length_app. simpl. apply Is_true_true, Nat.ltb_lt. lia.
Qed.

Lemma terminated_length buf : terminated buf → (length (c_string buf) < length buf)%nat.
Proof.
  unfold terminated, c_string. intros H%Is_true_true%Nat.ltb_lt.
  rewrite length_take. lia.
Qed.

Lemma unterminated_printable s : Forall printable s → terminated s = false.
Proof.
  intros H. unfold terminated. rewrite strlen_printable by done.
  apply Nat.ltb_irrefl.
Qed.

(** ** Running the pieces *)

Section Running.
Context `{P : Platform}.

Lemma capacity_50 : capacity = 50%nat.
Proof. reflexivity. Qed.

Lemma log_nil w : log [] w = w.
Proof. destruct w. unfold log. simpl. by rewrite app_nil_r. Qed.

Lemma log_log tr1 tr2 w : log tr2 (log tr1 w) = log (tr1 ++ tr2) w.
Proof. unfold log. simpl. by rewrite app_assoc. Qed.

Lemma prvSendBuffer_run buf n w :
  prvSendBuffer buf n w = (Ok tt, log (transmission buf n) w).
Proof.
  destruct n as [|n].
  - by rewrite log_nil.
  - unfold prvSendBuffer, transmission, log, xBlockMax100ms. cbn.
    by rewrite <- app_assoc.
Qed.

Lemma commands_app tr1 tr2 : commands (tr1 ++ tr2) = commands tr1 ++ commands tr2.
Proof. apply omap_app. Qed.

Lemma commands_transmission buf n : commands (transmission buf n) = [].
Proof. by destruct n. Qed.

End Running.

(** ** The dispatch loop *)

Section Dispatching.
Context `{P : Platform}.

Lemma commands_command line tr :
  commands (EvProcessCommand line :: tr) = line :: commands tr.
Proof. done. Qed.

Lemma commands_dispatch_trace line outs :
  commands (dispatch_trace line outs) = replicate (length outs) line.
Proof.
  induction outs as [|o outs IH]; [done|].
  unfold dispatch_trace in *. cbn [flat_map length replicate].
  by rewrite commands_app, commands_command, commands_transmission, IH.
Qed.

Lemma length_chunks n : ∀ s line o, length (chunks n s line o) = n.
Proof.
  induction n as [|n IH]; intros s line o; [done|]. cbn [chunks].
  destruct (FreeRTOS_CLIProcessCommand s line o _) as [[s' o'] r].
  cbn [length]. by rewrite IH.
Qed.

Lemma read_string_run buf w :
  terminated buf → read_string buf w = (Ok (c_string buf), w).
Proof. intros H%Is_true_true. unfold read_string. by rewrite H. Qed.

Lemma read_string_fault buf w :
  terminated buf = false → read_string buf w = (Fault ReadOutOfBounds, w).
Proof. intros H. unfold read_string. by rewrite H. Qed.

Lemma dispatch_run n : ∀ fuel i buf last o s tr,
  has_more n s (c_string buf) o → (n < fuel)%nat →
  dispatch fuel (Console i buf last o s tr)
  = (Ok tt,
     Console i buf last
       (after_calls (S n) s (c_string buf) o).2
       (after_calls (S n) s (c_string buf) o).1
       (tr ++ dispatch_trace (c_string buf) (chunks (S n) s (c_string buf) o))).
Proof.
  induction n as [|n IH]; intros fuel i buf last o s tr Hmore Hfuel;
    (destruct fuel as [|fuel]; [lia|]);
    cbn [dispatch]; run;
    cbn [has_more] in Hmore; cbn [after_calls chunks];
    destruct (FreeRTOS_CLIProcessCommand s (c_string buf) o _) as [[s' o'] r];
    run; rewrite prvSendBuffer_run; run.
  - rewrite Hmore. cbn [Z.eqb pdFALSE after_calls fst snd]. run.
    unfold dispatch_trace. cbn [flat_map].  by rewrite app_nil_r, <- app_assoc.
  - destruct Hmore as [Hr Hmore]. apply Z.eqb_neq in Hr. rewrite Hr.
    rewrite IH by (done || lia). f_equal. f_equal.
    unfold dispatch_trace. cbn [flat_map]. by rewrite <- !app_assoc.
Qed.

(** Whatever the interpreter does and whatever the array holds, the loop
    changes neither the index nor the two arrays, hands the same line to
    every call, and does not fault. *)
Lemma dispatch_any fuel : ∀ i buf last o s tr,
  ∃ r o' s' tr' k,
    dispatch fuel (Console i buf last o s tr) = (r, Console i buf last o' s' (tr ++ tr'))
    ∧ commands tr' = replicate k (c_string buf)
    ∧ (r = Ok tt ∧ (0 < k)%nat ∨ r = OutOfFuel)
    ∧ ((0 < fuel)%nat → (0 < k)%nat).
Proof.
  induction fuel as [|fuel IH]; intros i buf last o s tr.
  - exists OutOfFuel, o, s, [], 0%nat. rewrite app_nil_r.
    repeat split; [by right | lia].
  - cbn [dispatch]. run.
    destruct (FreeRTOS_CLIProcessCommand s (c_string buf) o _) as [[s' o'] r].
    run. rewrite prvSendBuffer_run. run.
    destruct (r =? pdFALSE).
    + exists (Ok tt), o', s',
        (EvProcessCommand (c_string buf) :: transmission o' (strlen o')), 1%nat.
      run. rewrite <- app_assoc.
      repeat split; [|left; split; [done|lia]|lia].
      by rewrite commands_command, commands_transmission.
    + destruct (IH i buf last o' s'
        ((tr ++ [EvProcessCommand (c_string buf)]) ++ transmission o' (strlen o')))
        as (r' & o'' & s'' & tr' & k & -> & Hc & Hr & _).
      exists r', o'', s'',
        (EvProcessCommand (c_string buf) :: transmission o' (strlen o') ++ tr'), (S k).
      rewrite <- !app_assoc.
      repeat split; [| destruct Hr as [[-> _]| ->]; [left; split; [done|lia] | by right] | lia].
      by rewrite commands_command, commands_app, commands_transmission, Hc.
Qed.

End Dispatching.

(** ** The arrays *)

Section Arrays.
Context `{P : Platform}.

Lemma length_padded line : (length line ≤ capacity)%nat → length (padded line) = capacity.
Proof. intros H. unfold padded. rewrite length_app, length_replicate. lia. Qed.

Lemma padded_lt line :
  (length line < capacity)%nat →
  padded line = line ++ NUL :: replicate (capacity - S (length line)) NUL.
Proof.
  intros H. unfold padded.
  replace (capacity - length line)%nat with (S (capacity - S (length line))) by lia.
  done.
Qed.

Lemma padded_full line : length line = capacity → padded line = line.
Proof.
  intros H. unfold padded. rewrite H, Nat.sub_diag. apply app_nil_r.
Qed.

Lemma padded_snoc line c :
  (length line < capacity)%nat →
  <[length line := c]> (padded line) = padded (line ++ [c]).
Proof.
  intros H. rewrite padded_lt by done. unfold padded.
  rewrite insert_app_r_alt, Nat.sub_diag by lia. cbn [insert list_insert].
  rewrite length_app, <- app_assoc. cbn [length app].
  by replace (length line + 1)%nat with (S (length line)) by lia.
Qed.

Lemma padded_erase line c :
  (length line < capacity)%nat →
  <[length line := NUL]> (padded (line ++ [c])) = padded line.
Proof.
  intros H. rewrite (padded_lt line) by done. unfold padded.
  rewrite <- app_assoc, insert_app_r_alt, Nat.sub_diag by lia.
  cbn [insert list_insert app]. rewrite length_app. cbn [length].
  by replace (length line + 1)%nat with (S (length line)) by lia.
Qed.

Lemma terminated_padded line :
  Forall printable line → (length line < capacity)%nat → terminated (padded line).
Proof. intros Hl H. rewrite padded_lt by done. by apply terminated_app_NUL. Qed.

Lemma c_string_padded line :
  Forall printable line → c_string (padded line) = line.
Proof.
  intros Hl. unfold padded.
  destruct (capacity - length line)%nat as [|n].
  - cbn [replicate]. rewrite app_nil_r. unfold c_string.
    rewrite strlen_printable by done. apply firstn_all.
  - by apply c_string_app_NUL.
Qed.

Lemma stored_typing line last o s tr :
  stored (typing line last o s tr) = line.
Proof.
  unfold stored, typing, padded. cbn [ucInputIndex cInputString].
  rewrite Nat2Z.id. by rewrite take_app_length.
Qed.

Lemma strcpy_run dst src w :
  terminated src → (length (c_string src) < length dst)%nat →
  strcpy dst src w
  = (Ok (c_string src ++ NUL :: drop (length (c_string src) + 1) dst), w).
Proof.
  intros Hsrc Hlen. unfold strcpy, bind. rewrite read_string_run by done.
  replace (length (c_string src) + 1 <=? length dst)%nat with true; [done|].
  symmetry. apply Nat.leb_le. lia.
Qed.

Lemma log_typing tr' line last o s tr :
  log tr' (typing line last o s tr) = typing line last o s (tr ++ tr').
Proof. done. Qed.

Lemma recall_last_run line last o s tr :
  well_formed line last →
  recall_last (typing line last o s tr)
  = (Ok tt, Console (Z.of_nat (length line)) (padded (dispatched_line line last))
                    last o s tr).
Proof.
  intros [Hl Hlen Hsz Ht Hp]. unfold recall_last, typing. run.
  destruct line as [|c line]; [|done].
  change (Z.of_nat (length []) =? 0) with true. cbv beta iota. run.
  cbn [dispatched_line length Z.of_nat].
  pose proof (terminated_length last Ht) as Hc. rewrite Hsz in Hc.
  rewrite strcpy_run; [|done|by rewrite length_padded by (simpl; lia)].
  do 2 f_equal. rewrite (padded_lt (c_string last)) by done. f_equal. f_equal.
  unfold padded. cbn [length app]. rewrite Nat.sub_0_r, drop_replicate.
  f_equal. lia.
Qed.

Lemma remember_and_clear_run i line last o s tr :
  Forall printable line → (length line < capacity)%nat → length last = capacity →
  remember_and_clear (Console i (padded line) last o s tr)
  = (Ok tt, typing [] (line ++ NUL :: drop (length line + 1) last) o s tr).
Proof.
  intros Hl Hlen Hsz. unfold remember_and_clear. run.
  rewrite strcpy_run;
    [|by apply terminated_padded|rewrite c_string_padded by done; lia].
  rewrite c_string_padded by done. run. unfold memset.
  rewrite length_padded by lia.
  change (cmdMAX_INPUT_SIZE <=? Z.of_nat capacity) with true. cbv beta iota. run.
  unfold typing. do 2 f_equal.
  rewrite drop_ge by (rewrite length_padded by lia; done).
  by rewrite app_nil_r.
Qed.

(** The copy of line 428 on an input array that is full: there is no NUL
    in the array to end the copy. *)
Lemma remember_and_clear_full i line last o s tr :
  Forall printable line →
  remember_and_clear (Console i line last o s tr)
  = (Fault ReadOutOfBounds, Console i line last o s tr).
Proof.
  intros Hl. unfold remember_and_clear. run. unfold strcpy, bind.
  by rewrite read_string_fault by by apply unterminated_printable.
Qed.

End Arrays.

(** ** One turn of the loop *)

Section Turn.
Context `{P : Platform}.

Lemma store_run buf i c w :
  (i < length buf)%nat →
  store buf (Z.of_nat i) c w = (Ok (<[i := c]> buf), w).
Proof.
  intros H. unfold store.
  replace ((0 <=? Z.of_nat i) && (Z.of_nat i <? Z.of_nat (length buf))) with true.
  - by rewrite Nat2Z.id.
  - symmetry. apply andb_true_iff. split; [apply Z.leb_le|apply Z.ltb_lt]; lia.
Qed.

(** The line editor of the code is the line editor of the specification. *)
Lemma edit_line_run c line last o s tr :
  (length line ≤ capacity)%nat → is_terminator c = false →
  edit_line c (typing line last o s tr)
  = (Ok tt, typing (spec_feed line c) last o s tr).
Proof.
  intros Hlen Hc. unfold edit_line, spec_feed.
  rewrite (not_terminator_not_CR c Hc).
  fold (is_backspace c). fold (printable c).
  destruct (is_backspace c).
  - unfold typing. run.
    destruct line as [|x line _] using rev_ind; [done|].
    rewrite length_app in *. cbn [length] in *.
    replace (0 <? Z.of_nat (length line + 1)) with true
      by (symmetry; apply Z.ltb_lt; lia).
    cbv beta iota zeta. run.
    replace ((Z.of_nat (length line + 1) - 1) mod 256) with (Z.of_nat (length line))
      by (rewrite Z.mod_small; unfold capacity, cmdMAX_INPUT_SIZE in *; lia).
    rewrite store_run
      by (rewrite length_padded; rewrite ?length_app; cbn [length]; lia).
    rewrite padded_erase by lia.
    replace (length line + 1 - 1)%nat with (length line) by lia.
    by rewrite take_app_length.
  - destruct (printable c); [|done].
    unfold typing. run.
    destruct (Nat.ltb_spec (length line) capacity) as [Hlt|Hge].
    + replace (Z.of_nat (length line) <? cmdMAX_INPUT_SIZE) with true
        by (symmetry; apply Z.ltb_lt; unfold capacity in *; lia).
      cbv beta iota. run.
      rewrite store_run by (rewrite length_padded; lia).
      rewrite padded_snoc by done.
      rewrite Z.mod_small by (unfold capacity, cmdMAX_INPUT_SIZE in *; lia).
      rewrite length_app. cbn [length]. do 2 f_equal. lia.
    + replace (Z.of_nat (length line) <? cmdMAX_INPUT_SIZE) with false; [done|].
      symmetry. apply Z.ltb_ge. unfold capacity in *. lia.
Qed.

Lemma iteration_run fuel c w :
  iteration fuel (Some c) w
  = (if is_terminator c then end_of_line fuel else edit_line c) (log (reception c) w).
Proof.
  unfold iteration, xSemaphoreTake. run.
  change (bool_decide (is_Some (Some c))) with true. cbv beta iota.
  change (pdTRUE =? pdPASS) with true. cbv beta iota.
  rewrite prvSendBuffer_run. unfold log, transmission, reception, is_terminator. run.
  by rewrite <- !app_assoc.
Qed.

Lemma iteration_idle fuel w :
  iteration fuel None w
  = (Ok tt, log [EvReceive_IT 1; EvSemaphoreTake xRxCompleteSemaphore portMAX_DELAY] w).
Proof.
  unfold iteration, xSemaphoreTake. run. by rewrite <- app_assoc.
Qed.

(** The terminator branch when the interpreter is known to stop. *)
Lemma end_of_line_run n fuel line last o s tr :
  let L := dispatched_line line last in
  well_formed line last → (length line < capacity)%nat →
  has_more n s L o → (n < fuel)%nat →
  end_of_line fuel (typing line last o s tr)
  = (Ok tt,
     typing [] (L ++ NUL :: drop (length L + 1) last)
       (after_calls (S n) s L o).2 (after_calls (S n) s L o).1
       (tr ++ transmission pcNewLine (strlen pcNewLine)
           ++ dispatch_trace L (chunks (S n) s L o)
           ++ transmission pcEndOfOutputMessage (strlen pcEndOfOutputMessage))).
Proof.
  intros L Hwf Hlen Hmore Hfuel.
  assert (Forall printable L ∧ (length L < capacity)%nat) as [HL HLlen].
  { destruct Hwf as [Hl _ Hsz Ht Hp]. subst L. destruct line; [|done].
    split; [done|]. rewrite <- Hsz. by apply terminated_length. }
  unfold end_of_line, bind at 1. rewrite prvSendBuffer_run, log_typing.
  unfold bind at 1. rewrite recall_last_run by done. fold L.
  unfold bind at 1.
  rewrite (dispatch_run n); [|by rewrite c_string_padded|done].
  rewrite c_string_padded by done.
  unfold bind at 1. rewrite remember_and_clear_run by (done || apply Hwf).
  rewrite prvSendBuffer_run, log_typing. by rewrite <- !app_assoc.
Qed.

(** The terminator branch on a full line, when the interpreter is known to
    stop: the dispatch loop runs to its end, and the copy behind it reads
    past the end of the array. *)
Lemma end_of_line_full_run n fuel line last o s tr :
  well_formed line last → length line = capacity →
  has_more n s line o → (n < fuel)%nat →
  end_of_line fuel (typing line last o s tr)
  = (Fault ReadOutOfBounds,
     typing line last
       (after_calls (S n) s line o).2 (after_calls (S n) s line o).1
       (tr ++ transmission pcNewLine (strlen pcNewLine)
           ++ dispatch_trace line (chunks (S n) s line o))).
Proof.
  intros Hwf Hfull Hmore Hfuel.
  assert (dispatched_line line last = line) as HL
    by (destruct line; [by rewrite capacity_50 in Hfull|done]).
  unfold end_of_line, bind at 1. rewrite prvSendBuffer_run, log_typing.
  unfold bind at 1. rewrite recall_last_run by done. rewrite HL.
  unfold bind at 1.
  rewrite (dispatch_run n); [|by rewrite c_string_padded by apply Hwf|done].
  rewrite c_string_padded by apply Hwf.
  unfold bind at 1. rewrite padded_full by done.
  rewrite remember_and_clear_full by apply Hwf.
  unfold typing. rewrite padded_full by done. by rewrite <- !app_assoc.
Qed.

(** The terminator branch, whatever the interpreter does. *)
Lemma end_of_line_any fuel line last o s tr :
  let L := dispatched_line line last in
  well_formed line last →
  ∃ r w' k,
    end_of_line fuel (typing line last o s tr) = (r, w')
    ∧ commands (uart w') = commands tr ++ replicate k L
    ∧ ((0 < fuel)%nat → (length line < capacity)%nat → (0 < k)%nat)
    ∧ match r with
      | Ok _ =>
        (0 < k)%nat ∧ (length L < capacity)%nat ∧ Forall printable L ∧
        ∃ o' s' tr',
          w' = typing [] (L ++ NUL :: drop (length L + 1) last) o' s' tr'
      | Fault f =>
        f = ReadOutOfBounds ∧ length line = capacity ∧ (0 < k)%nat ∧
        ∃ o' s' tr', w' = typing line last o' s' tr'
      | OutOfFuel =>
        ∃ o' s' tr', w' = Console (Z.of_nat (length line)) (padded L) last o' s' tr'
      end.
Proof.
  intros L Hwf.
  assert (Forall printable L ∧ (length L ≤ capacity)%nat
          ∧ ((length line < capacity)%nat → (length L < capacity)%nat)
          ∧ ((length L < capacity)%nat → (length line < capacity)%nat))
    as (HL & HLle & HLlt & HLlt').
  { destruct Hwf as [Hl Hle Hsz Ht Hp]. subst L. destruct line; [|done].
    pose proof (terminated_length last Ht). cbn [dispatched_line length]. 
    rewrite Hsz in *. repeat split; (done || lia). }
  unfold end_of_line, bind at 1. rewrite prvSendBuffer_run, log_typing.
  unfold bind at 1. rewrite recall_last_run by done. fold L.
  unfold bind at 1.
  destruct (dispatch_any fuel (Z.of_nat (length line)) (padded L) last o s
      (tr ++ transmission pcNewLine (strlen pcNewLine)))
    as (r & o' & s' & tr' & k & -> & Hc & Hr & Hk).
  rewrite c_string_padded in Hc by done.
  destruct Hr as [[-> Hk']| ->].
  - destruct (decide (length L < capacity)%nat) as [Hlt|Hge].
    + unfold bind at 1. rewrite remember_and_clear_run by (done || apply Hwf).
      rewrite prvSendBuffer_run, log_typing.
      eexists (Ok tt), _, k. split; [done|].
      cbn [typing uart]. rewrite !commands_app, !commands_transmission, Hc.
      rewrite !app_nil_r. repeat split; (done || eauto).
    + assert (length line = capacity) as Hfull.
      { destruct Hwf as [_ Hle _ _ _].
        destruct (decide (length line < capacity)%nat) as [l|]; [|lia].
        specialize (HLlt l). lia. }
      assert (L = line) as HLline.
      { subst L. destruct line; [done|done]. }
      rewrite HLline in *. rewrite padded_full by done.
      unfold bind at 1. rewrite remember_and_clear_full by done.
      eexists (Fault ReadOutOfBounds), _, k. split; [done|].
      cbn [uart]. rewrite !commands_app, !commands_transmission, Hc.
      rewrite !app_nil_r. repeat split; [done..|].
      unfold typing. rewrite padded_full by done. eauto.
  - eexists OutOfFuel, _, k. split; [done|].
    cbn [uart]. rewrite !commands_app, !commands_transmission, Hc.
    rewrite !app_nil_r. repeat split; eauto.
Qed.

End Turn.

(** ** The invariant of the loop *)

Section Invariant.
Context `{P : Platform}.

Lemma typing_invariant w :
  invariant w →
  w = typing (stored w) (cLastInputString w) (pcOutputString w) (cli w) (uart w)
  ∧ well_formed (stored w) (cLastInputString w).
Proof.
  intros [Hi Hsz Hp Hz Hlsz Hlt Hlp]. destruct w as [i buf last o s tr].
  unfold stored, typing, padded, capacity in *.
  cbn [ucInputIndex cInputString cLastInputString pcOutputString cli uart] in *.
  assert (length (take (Z.to_nat i) buf) = Z.to_nat i) as Hlen
    by (rewrite length_take; unfold cmdMAX_INPUT_SIZE in *; lia).
  split.
  - rewrite Hlen, <- Hz, take_drop. f_equal. lia.
  - split; try done. rewrite Hlen. unfold capacity, cmdMAX_INPUT_SIZE in *. lia.
Qed.

Lemma invariant_typing line last o s tr :
  well_formed line last → invariant (typing line last o s tr).
Proof.
  intros [Hl Hlen Hsz Ht Hp]. split; try done.
  - cbn [typing ucInputIndex]. unfold capacity, cmdMAX_INPUT_SIZE in *. lia.
  - by apply length_padded.
  - by rewrite stored_typing.
  - cbn [typing ucInputIndex cInputString]. unfold padded.
    by rewrite Nat2Z.id, drop_app_length.
Qed.

Lemma printable_or_NUL_padded line :
  Forall printable line → Forall (λ c, printable c ∨ c = NUL) (padded line).
Proof.
  intros H. unfold padded. apply Forall_app. split.
  - eapply Forall_impl; [done|]. by left.
  - apply Forall_replicate. by right.
Qed.

Lemma invariant_line w : invariant w → line_invariant w.
Proof.
  intros H. destruct (typing_invariant w H) as [Hw [Hl Hlen _ _ _]].
  destruct H as [Hi Hsz Hp _ _ _ _]. split; try done.
  rewrite Hw. cbn [typing cInputString]. by apply printable_or_NUL_padded.
Qed.

Lemma invariant_log tr w : invariant w → invariant (log tr w).
Proof. by intros []. Qed.

Lemma power_on_typing s : power_on s = typing [] (replicate capacity NUL) [] s [].
Proof. done. Qed.

Lemma well_formed_power_on : well_formed [] (replicate capacity NUL).
Proof.
  split.
  - constructor.
  - cbn [length]. lia.
  - apply length_replicate.
  - done.
  - change (c_string (replicate capacity NUL)) with (@nil ascii). constructor.
Qed.

Lemma invariant_power_on s : invariant (power_on s).
Proof. rewrite power_on_typing. apply invariant_typing, well_formed_power_on. Qed.

Lemma spec_feed_printable line c :
  Forall printable line → Forall printable (spec_feed line c).
Proof.
  intros H. unfold spec_feed. destruct (is_backspace c).
  - by apply Forall_take.
  - destruct (printable c) eqn:Hc; [|done].
    destruct (length line <? capacity)%nat; [|done].
    apply Forall_app. split; [done|]. constructor; [|done]. by rewrite Hc.
Qed.

Lemma spec_feed_length line c :
  (length line ≤ capacity)%nat → (length (spec_feed line c) ≤ capacity)%nat.
Proof.
  intros H. unfold spec_feed. destruct (is_backspace c).
  - rewrite length_take. lia.
  - destruct (printable c); [|done].
    destruct (Nat.ltb_spec (length line) capacity); [|done].
    rewrite length_app. cbn [length]. lia.
Qed.

Lemma well_formed_feed line last c :
  well_formed line last → well_formed (spec_feed line c) last.
Proof.
  intros [Hl Hlen Hsz Ht Hp]. split; try done.
  - by apply spec_feed_printable.
  - by apply spec_feed_length.
Qed.

Lemma well_formed_edit cs : ∀ line last,
  well_formed line last → well_formed (spec_edit line cs) last.
Proof.
  induction cs as [|c cs IH]; intros line last H; [done|].
  apply IH. by apply well_formed_feed.
Qed.

Lemma well_formed_remembered L last :
  Forall printable L → (length L < capacity)%nat → length last = capacity →
  well_formed [] (L ++ NUL :: drop (length L + 1) last).
Proof.
  intros HL Hlen Hsz. split.
  - constructor.
  - cbn [length]. lia.
  - rewrite length_app. cbn [length]. rewrite length_drop. lia.
  - by apply terminated_app_NUL.
  - by rewrite c_string_app_NUL.
Qed.

(** One turn keeps the invariant; a turn that stops inside a dispatch
    leaves a state in which the input line is still within its bounds. *)
Lemma iteration_any fuel rx w :
  invariant w →
  match (iteration fuel rx w).1 with
  | Ok _ => invariant (iteration fuel rx w).2
  | _ => line_invariant (iteration fuel rx w).2
  end.
Proof.
  intros Hw. destruct rx as [c|].
  2:{ rewrite iteration_idle. by apply invariant_log. }
  rewrite iteration_run.
  destruct (typing_invariant w Hw) as [Hty Hwf].
  set (line := stored w) in *. set (last := cLastInputString w) in *.
  rewrite Hty, log_typing.
  destruct (is_terminator c) eqn:Hc.
  - destruct (end_of_line_any fuel line last (pcOutputString w) (cli w)
                (uart w ++ reception c) Hwf) as (r & w' & k & -> & _ & _ & Hr).
    cbn [fst snd]. destruct r as [[]|f|].
    + destruct Hr as (_ & HLlen & HL & o' & s' & tr' & ->).
      apply invariant_typing, well_formed_remembered; (done || apply Hwf).
    + destruct Hr as (_ & _ & _ & o' & s' & tr' & ->).
      by apply invariant_line, invariant_typing.
    + destruct Hr as (o' & s' & tr' & ->).
      destruct Hwf as [Hl Hlen Hsz Ht Hp].
      assert (Forall printable (dispatched_line line last)
              ∧ (length (dispatched_line line last) ≤ capacity)%nat) as [HL HLlen].
      { destruct line; [|done]. split; [done|].
        pose proof (terminated_length last Ht). cbn [dispatched_line]. lia. }
      split.
      * cbn [ucInputIndex]. unfold capacity, cmdMAX_INPUT_SIZE in *. lia.
      * by apply length_padded.
      * unfold stored. cbn [ucInputIndex cInputString]. rewrite Nat2Z.id.
        destruct line as [|x line]; [by rewrite take_0|].
        cbn [dispatched_line]. unfold padded. by rewrite take_app_length.
      * by apply printable_or_NUL_padded.
  - rewrite edit_line_run by (done || apply Hwf). cbn [fst snd].
    by apply invariant_typing, well_formed_feed.
Qed.

Lemma serve_any fuel rx : ∀ w,
  invariant w →
  match (serve fuel rx w).1 with
  | Ok _ => invariant (serve fuel rx w).2
  | _ => line_invariant (serve fuel rx w).2
  end.
Proof.
  induction rx as [|r rx IH]; intros w Hw; [done|].
  cbn [serve]. unfold bind.
  pose proof (iteration_any fuel r w Hw) as Hr.
  destruct (iteration fuel r w) as [[[]|f|] w']; cbn [fst snd] in *;
    by try apply IH.
Qed.

Lemma startup_run w :
  startup w
  = (Ok tt, log ([EvSemaphoreTake xTxCompleteSemaphore 0;
                  EvSemaphoreTake xRxCompleteSemaphore 0]
                 ++ transmission pcWelcomeMessage (strlen pcWelcomeMessage)) w).
Proof.
  unfold startup, xSemaphoreTake. run. rewrite prvSendBuffer_run.
  unfold log. run. by rewrite <- !app_assoc.
Qed.

Lemma serve_app fuel rx1 rx2 w w1 :
  serve fuel rx1 w = (Ok tt, w1) → serve fuel (rx1 ++ rx2) w = serve fuel rx2 w1.
Proof.
  revert w. induction rx1 as [|r rx1 IH]; intros w H.
  - by injection H as ->.
  - cbn [serve app] in *. unfold bind in *.
    destruct (iteration fuel r w) as [[[]|f|] w']; by try apply IH.
Qed.

(** Characters that do not end the line are edited into it as the
    specification says, each after its echo. *)
Lemma serve_edit fuel cs : ∀ line last o s tr,
  well_formed line last → Forall (λ c, is_terminator c = false) cs →
  serve fuel (Some <$> cs) (typing line last o s tr)
  = (Ok tt, typing (spec_edit line cs) last o s (tr ++ flat_map reception cs)).
Proof.
  induction cs as [|c cs IH]; intros line last o s tr Hwf Hcs.
  - cbn [fmap list_fmap serve flat_map spec_edit foldl]. by rewrite app_nil_r.
  - apply Forall_cons in Hcs as [Hc Hcs].
    cbn [fmap list_fmap serve]. unfold bind.
    rewrite iteration_run, Hc, log_typing, edit_line_run by (done || apply Hwf).
    change (list_fmap ascii (option ascii) Some cs) with (Some <$> cs).
    rewrite IH by (done || by apply well_formed_feed).
    cbn [flat_map spec_edit foldl]. by rewrite <- app_assoc.
Qed.

End Invariant.

(** ** The trace only grows *)

Section Trace.
Context `{P : Platform}.

Lemma extends_ret {A} (a : A) : extends (ret a).
Proof. intros w. exists []. by rewrite app_nil_r. Qed.

Lemma extends_raise {A} f : extends (@raise _ A f).
Proof. intros w. exists []. by rewrite app_nil_r. Qed.

Lemma extends_out_of_fuel {A} : extends (@out_of_fuel _ A).
Proof. intros w. exists []. by rewrite app_nil_r. Qed.

Lemma extends_get {A} (f : console → A) : extends (get f).
Proof. intros w. exists []. by rewrite app_nil_r. Qed.

Lemma extends_emit e : extends (emit e).
Proof. intros w. by exists [e]. Qed.

Lemma extends_set_ucInputIndex i : extends (set_ucInputIndex i).
Proof. intros w. exists []. by rewrite app_nil_r. Qed.

Lemma extends_set_cInputString b : extends (set_cInputString b).
Proof. intros w. exists []. by rewrite app_nil_r. Qed.

Lemma extends_set_cLastInputString b : extends (set_cLastInputString b).
Proof. intros w. exists []. by rewrite app_nil_r. Qed.

Lemma extends_set_interpreter s o : extends (set_interpreter s o).
Proof. intros w. exists []. by rewrite app_nil_r. Qed.

Lemma extends_bind {A B} (m : M A) (k : A → M B) :
  extends m → (∀ a, extends (k a)) → extends (bind m k).
Proof.
  intros Hm Hk w. unfold bind. destruct (Hm w) as [r1 H1].
  destruct (m w) as [[a|f|] w1]; cbn [snd] in *; [|by exists r1..].
  destruct (Hk a w1) as [r2 H2]. exists (r1 ++ r2).
  by rewrite H2, H1, app_assoc.
Qed.

Lemma extends_prvSendBuffer buf n : extends (prvSendBuffer buf n).
Proof. intros w. rewrite prvSendBuffer_run. by eexists. Qed.

Lemma extends_read_string buf : extends (read_string buf).
Proof.
  unfold read_string. destruct (terminated buf);
    [apply extends_ret|apply extends_raise].
Qed.

Lemma extends_strcpy dst src : extends (strcpy dst src).
Proof.
  unfold strcpy. apply extends_bind; [apply extends_read_string|intros s].
  destruct (_ <=? _)%nat; [apply extends_ret|apply extends_raise].
Qed.

Lemma extends_memset dst c n : extends (memset dst c n).
Proof.
  unfold memset. destruct (_ <=? _); [apply extends_ret|apply extends_raise].
Qed.

Lemma extends_store buf i c : extends (store buf i c).
Proof.
  unfold store. destruct (_ && _); [apply extends_ret|apply extends_raise].
Qed.

Create HintDb extends.

#[local] Hint Resolve extends_ret extends_raise extends_out_of_fuel extends_get
  extends_emit extends_set_ucInputIndex extends_set_cInputString
  extends_set_cLastInputString extends_set_interpreter extends_prvSendBuffer
  extends_read_string extends_strcpy extends_memset extends_store : extends.

Ltac extends :=
  repeat first
    [ apply extends_bind; [|intros ?]
    | solve [auto with extends]
    | match goal with
      | |- extends (if ?b then _ else _) => destruct b
      | |- context [FreeRTOS_CLIProcessCommand ?s ?l ?o ?n] =>
        destruct (FreeRTOS_CLIProcessCommand s l o n) as [[? ?] ?]
      end ].

Lemma extends_dispatch fuel : extends (dispatch fuel).
Proof. induction fuel as [|fuel IH]; cbn [dispatch]; extends. Qed.

Lemma extends_end_of_line fuel : extends (end_of_line fuel).
Proof.
  pose proof (extends_dispatch fuel).
  unfold end_of_line, recall_last, remember_and_clear. extends.
Qed.

Lemma extends_edit_line c : extends (edit_line c).
Proof. unfold edit_line. extends. Qed.

End Trace.

(** * The claims *)

Section Claims.
Context `{P : Platform}.

Lemma invariant_inv w :
  invariant w → ∃ line last o s tr, w = typing line last o s tr ∧ well_formed line last.
Proof.
  intros H. destruct (typing_invariant w H) as [Hw Hwf]. by eauto 10.
Qed.

Lemma task_run fuel rx w :
  prvUARTCommandConsoleTask fuel rx w
  = serve fuel rx
      (log ([EvSemaphoreTake xTxCompleteSemaphore 0;
             EvSemaphoreTake xRxCompleteSemaphore 0]
            ++ transmission pcWelcomeMessage (strlen pcWelcomeMessage)) w).
Proof.
  unfold prvUARTCommandConsoleTask, bind. by rewrite startup_run.
Qed.

(** The states the task reaches between two turns satisfy the invariant. *)
Lemma reachable_invariant fuel rx s w :
  prvUARTCommandConsoleTask fuel rx (power_on s) = (Ok tt, w) → invariant w.
Proof.
  rewrite task_run. intros H.
  match type of H with serve fuel rx ?w0 = _ =>
    assert (invariant w0) as H0 by apply invariant_log, invariant_power_on;
    pose proof (serve_any fuel rx w0 H0) as Hany
  end.
  by rewrite H in Hany.
Qed.

Lemma commands_reception c : commands (reception c) = [].
Proof. done. Qed.

Lemma commands_receptions cs : commands (flat_map reception cs) = [].
Proof.
  induction cs as [|c cs IH]; [done|]. cbn [flat_map].
  by rewrite commands_app, IH.
Qed.

Lemma printable_no_terminator line c :
  Forall printable line → is_terminator c → c ∉ line.
Proof.
  intros Hl Hc Hin. rewrite Forall_forall in Hl.
  apply Hl, printable_not_terminator in Hin. rewrite Hin in Hc. done.
Qed.

(** The last turn of [serve] on a line terminator, whatever the outcome. *)
Lemma serve_terminator fuel c line last o s tr :
  well_formed line last → is_terminator c →
  ∃ k, commands (uart (serve fuel [Some c] (typing line last o s tr)).2)
       = commands tr ++ replicate k (dispatched_line line last)
     ∧ ((0 < fuel)%nat → (length line < capacity)%nat → (0 < k)%nat)
     ∧ ((length line < capacity)%nat →
        (serve fuel [Some c] (typing line last o s tr)).1 = Ok tt
        ∨ (serve fuel [Some c] (typing line last o s tr)).1 = OutOfFuel).
Proof.
  intros Hwf Hc%Is_true_true. cbn [serve]. unfold bind.
  rewrite iteration_run, Hc, log_typing.
  destruct (end_of_line_any fuel line last o s (tr ++ reception c) Hwf)
    as (r & w' & k & -> & Hcmd & Hk & Hr).
  exists k.
  rewrite commands_app, commands_reception, app_nil_r in Hcmd.
  destruct r as [[]|f|]; (split; [done|split; [done|intros Hlen]]).
  - by left.
  - destruct Hr as (_ & Hfull & _). lia.
  - by right.
Qed.

(** A turn, and so a run, faults nowhere but in the read past the end of
    the full input array. *)
Lemma iteration_fault fuel rx w f :
  invariant w → (iteration fuel rx w).1 = Fault f →
  f = ReadOutOfBounds
  ∧ ucInputIndex (iteration fuel rx w).2 = cmdMAX_INPUT_SIZE
  ∧ terminated (cInputString (iteration fuel rx w).2) = false.
Proof.
  intros Hw. destruct rx as [c|]; [|by rewrite iteration_idle].
  destruct (invariant_inv w Hw) as (line & last & o & s & tr & -> & Hwf).
  rewrite iteration_run, log_typing.
  destruct (is_terminator c) eqn:Hc;
    [|by rewrite edit_line_run by (done || apply Hwf)].
  destruct (end_of_line_any fuel line last o s (tr ++ reception c) Hwf)
    as (r & w' & k & -> & _ & _ & Hr). cbn [fst snd].
  intros ->. destruct Hr as (-> & Hfull & _ & o' & s' & tr' & ->). split; [done|].
  cbn [typing ucInputIndex cInputString]. rewrite padded_full by done.
  split; [by rewrite Hfull|apply unterminated_printable, Hwf].
Qed.

Lemma serve_fault fuel rx f : ∀ w,
  invariant w → (serve fuel rx w).1 = Fault f →
  f = ReadOutOfBounds
  ∧ ucInputIndex (serve fuel rx w).2 = cmdMAX_INPUT_SIZE
  ∧ terminated (cInputString (serve fuel rx w).2) = false.
Proof.
  induction rx as [|r rx IH]; intros w Hw; [done|].
  cbn [serve]. unfold bind.
  pose proof (iteration_any fuel r w Hw) as Hinv.
  pose proof (iteration_fault fuel r w) as Hf.
  destruct (iteration fuel r w) as [[[]|f'|] w']; cbn [fst snd] in *.
  - by apply IH.
  - intros [= ->]. by apply Hf.
  - done.
Qed.

(** C1, as amended.  A line of printable characters, at most the capacity
    of them, with backspace and delete edits among them, is typed on an
    empty input line and ended by CR or LF.  When fewer characters than the
    capacity remain after the editing, every call of
    FreeRTOS_CLIProcessCommand this makes, and there is one at least, is
    handed the line [dispatched_line]: exactly the characters that remain,
    when there are any, and the line dispatched last when there are none.
    The run does not fault (it ends, or the interpreter outlasts the fuel);
    the characters that remain are printable and neither CR nor LF is among
    them. *)
Theorem typed_line_is_dispatched fuel cs c w :
  invariant w → ucInputIndex w = 0 →
  Forall (λ x, printable x ∨ is_backspace x) cs →
  (length (filter (λ x, printable x) cs) ≤ capacity)%nat →
  is_terminator c → (0 < fuel)%nat →
  (length (spec_edit [] cs) < capacity)%nat →
  ∃ k, commands (uart (serve fuel (Some <$> (cs ++ [c])) w).2)
       = commands (uart w)
         ++ replicate (S k) (dispatched_line (spec_edit [] cs) (cLastInputString w))
     ∧ ((serve fuel (Some <$> (cs ++ [c])) w).1 = Ok tt
        ∨ (serve fuel (Some <$> (cs ++ [c])) w).1 = OutOfFuel)
     ∧ Forall printable (spec_edit [] cs)
     ∧ (CR ∉ spec_edit [] cs) ∧ (LF ∉ spec_edit [] cs).
Proof.
  intros Hw Hi Hcs _ Hc Hfuel Hlen.
  destruct (invariant_inv w Hw) as (line & last & o & s & tr & -> & Hwf).
  assert (line = []) as ->.
  { cbn [typing ucInputIndex] in Hi. destruct line; [done|]. cbn [length] in Hi. lia. }
  assert (Forall (λ x, is_terminator x = false) cs) as Hnt.
  { eapply Forall_impl; [exact Hcs|]. intros x [Hx|Hx].
    - by apply printable_not_terminator.
    - by apply backspace_not_terminator. }
  pose proof (well_formed_edit cs [] last Hwf) as Hwf'.
  rewrite fmap_app. cbn [fmap list_fmap].
  erewrite serve_app by (by apply serve_edit).
  destruct (serve_terminator fuel c (spec_edit [] cs) last o s
              (tr ++ flat_map reception cs) Hwf' Hc) as (k & -> & Hk & Hr).
  specialize (Hk Hfuel Hlen). destruct k as [|k]; [lia|].
  exists k. cbn [typing uart cLastInputString].
  rewrite commands_app, commands_receptions, app_nil_r.
  split; [done|]. split; [by apply Hr|].
  repeat split; [apply Hwf'|..]; by apply printable_no_terminator; [apply Hwf'|].
Qed.

(** C3.  When the interpreter returns something other than pdFALSE exactly
    [n] times and then pdFALSE, the dispatch loop, given the fuel for it,
    returns after exactly [n + 1] calls of the interpreter, all on the line
    in cInputString; its trace is call, [prvSendBuffer] of the string that
    call left in the output buffer, call, [prvSendBuffer], and so on in call
    order ([dispatch_trace] over the [n + 1] strings [chunks]). *)
Theorem dispatch_sends_every_chunk n fuel w :
  terminated (cInputString w) →
  has_more n (cli w) (c_string (cInputString w)) (pcOutputString w) →
  (n < fuel)%nat →
  ∃ w', dispatch fuel w = (Ok tt, w')
      ∧ uart w' = uart w
          ++ dispatch_trace (c_string (cInputString w))
               (chunks (S n) (cli w) (c_string (cInputString w)) (pcOutputString w))
      ∧ length (chunks (S n) (cli w) (c_string (cInputString w)) (pcOutputString w)) = S n
      ∧ commands (uart w')
        = commands (uart w) ++ replicate (S n) (c_string (cInputString w)).
Proof.
  destruct w as [i buf last o s tr]. cbn [cInputString cli pcOutputString uart].
  intros Hbuf Hmore Hfuel. eexists. split; [by apply (dispatch_run n)|].
  cbn [uart]. rewrite commands_app, commands_dispatch_trace, length_chunks. done.
Qed.

(** C4.  After a dispatch that completed, a terminator on the empty input
    line hands the interpreter the line [L] of the dispatch before, at every
    call; and a terminator as the first character after power on hands it
    the empty line, with no fault. *)
Theorem empty_line_repeats_last_command :
  (∀ fuel c w w',
     invariant w → is_terminator c → iteration fuel (Some c) w = (Ok tt, w') →
     ∃ L, last (commands (uart w')) = Some L ∧ ucInputIndex w' = 0 ∧
       ∀ fuel' c' n,
         is_terminator c' → has_more n (cli w') L (pcOutputString w') → (n < fuel')%nat →
         ∃ w'', iteration fuel' (Some c') w' = (Ok tt, w'')
              ∧ commands (uart w'') = commands (uart w') ++ replicate (S n) L)
  ∧ (∀ fuel c n s,
       is_terminator c → has_more n s [] [] → (n < fuel)%nat →
       ∃ w', prvUARTCommandConsoleTask fuel [Some c] (power_on s) = (Ok tt, w')
           ∧ commands (uart w') = replicate (S n) []).
Proof.
  split.
  - intros fuel c w w' Hw Hc%Is_true_true Hrun.
    destruct (invariant_inv w Hw) as (line & last & o & s & tr & -> & Hwf).
    rewrite iteration_run, Hc, log_typing in Hrun.
    destruct (end_of_line_any fuel line last o s (tr ++ reception c) Hwf)
      as (r & w1 & k & Hrun' & Hcmd & _ & Hr).
    rewrite Hrun' in Hrun. injection Hrun as -> ->.
    destruct Hr as (Hk & HLlen & HL & o' & s' & tr' & ->).
    set (L := dispatched_line line last) in *.
    exists L. cbn [typing uart ucInputIndex cli pcOutputString length Z.of_nat] in *.
    split; [|split; [done|]].
    { rewrite Hcmd. destruct k as [|k]; [lia|].
      rewrite replicate_S_end, app_assoc. apply last_snoc. }
    intros fuel' c' n Hc'%Is_true_true Hmore Hfuel.
    assert (well_formed [] (L ++ NUL :: drop (length L + 1) last)) as Hwf'
      by (apply well_formed_remembered; (done || apply Hwf)).
    assert (dispatched_line [] (L ++ NUL :: drop (length L + 1) last) = L) as HL'
      by (by apply c_string_app_NUL).
    eexists. rewrite iteration_run, Hc'.
    change (log ?t (typing ?a ?b ?c ?d ?e)) with (typing a b c d (e ++ t)).
    rewrite (end_of_line_run n); rewrite ?HL'; [|done|rewrite capacity_50; cbn [length]; lia|done..].
    split; [done|]. cbn [typing uart].
    rewrite !commands_app, commands_reception, !commands_transmission,
      commands_dispatch_trace, length_chunks.
    by rewrite !app_nil_r.
  - intros fuel c n s Hc%Is_true_true Hmore Hfuel.
    rewrite task_run, power_on_typing, log_typing.
    cbn [serve]. unfold bind. rewrite iteration_run, Hc, log_typing.
    rewrite (end_of_line_run n);
      [|apply well_formed_power_on|rewrite capacity_50; cbn [length]; lia|done..].
    eexists. split; [done|]. cbn [typing uart].
    rewrite !commands_app, commands_reception, !commands_transmission,
      commands_dispatch_trace, length_chunks.
    change (dispatched_line [] (replicate capacity NUL)) with (@nil ascii).
    by rewrite !app_nil_r.
Qed.

(** C6, as amended.  On a platform, whose tick period is positive:
    [prvSendBuffer] with length 0 leaves the state as it is, nothing is
    asked of the UART and of the semaphore.  With a positive length it calls
    HAL_UART_Transmit_IT once, on the buffer, with the length converted to
    the uint16_t Size of that function: the length itself up to 65535, the
    length modulo 65536 in general.  It then waits once on the Tx semaphore
    for [100 / portTICK_PERIOD_MS] ticks, which last 100 ms at most, and
    returns [Ok]: whatever [signalled] answers for the wait, given in time
    or timed out, the result is the same. *)
Theorem prvSendBuffer_paced
    (C : Type) (interpreter : C → list ascii → list ascii → Z → C * list ascii * Z)
    (size tick delay : Z) (Htick : 0 < tick) (signalled : list event → bool)
    (pcBuffer : list ascii) (xBufferLength : nat)
    (w : @console (Build_Platform C interpreter size tick Htick delay signalled)) :
  prvSendBuffer pcBuffer xBufferLength w
  = (Ok tt,
     match xBufferLength with
     | O => w
     | S _ => log [EvTransmit_IT pcBuffer (uint16_t xBufferLength);
                   EvSemaphoreTake xTxCompleteSemaphore (100 / tick)] w
     end)
  ∧ Z.of_nat (uint16_t xBufferLength) = Z.of_nat xBufferLength mod 65536
  ∧ (Z.of_nat xBufferLength ≤ 65535 → uint16_t xBufferLength = xBufferLength)
  ∧ 0 ≤ 100 / tick * tick ≤ 100.
Proof.
  split; [|split; [|split]].
  - rewrite prvSendBuffer_run. destruct xBufferLength; [|done].
    by rewrite log_nil.
  - unfold uint16_t. rewrite Z2Nat.id; [done|].
    apply Z.mod_pos_bound. lia.
  - intros H. unfold uint16_t. rewrite Z.mod_small by lia. apply Nat2Z.id.
  - pose proof (Z.mul_div_le 100 tick Htick).
    pose proof (Z.div_pos 100 tick). lia.
Qed.

(** The wait of [prvSendBuffer] is for 100 ms at most. *)
Lemma xBlockMax100ms_bound :
  0 < portTICK_PERIOD_MS → 0 ≤ xBlockMax100ms * portTICK_PERIOD_MS ≤ 100.
Proof.
  intros H. unfold xBlockMax100ms.
  pose proof (Z.mul_div_le 100 portTICK_PERIOD_MS H).
  pose proof (Z.div_pos 100 portTICK_PERIOD_MS). lia.
Qed.

(** C8.  From power on, after any received characters and whatever the
    interpreter does: ucInputIndex is at most the capacity, the characters
    stored below it are printable, and every byte of the array is a
    printable character or NUL, so there is no control character in the
    line.  The run never writes outside an array.  It does not stop at a
    fault but at the read past the end of the full array, with ucInputIndex
    at the capacity (the defect of C5); where it has not stopped, every
    character that is no line terminator completes its turn. *)
Theorem input_line_invariant fuel rx s :
  0 ≤ ucInputIndex (prvUARTCommandConsoleTask fuel rx (power_on s)).2 ≤ cmdMAX_INPUT_SIZE
  ∧ length (cInputString (prvUARTCommandConsoleTask fuel rx (power_on s)).2)
    = Z.to_nat cmdMAX_INPUT_SIZE
  ∧ Forall printable (stored (prvUARTCommandConsoleTask fuel rx (power_on s)).2)
  ∧ Forall (λ c, printable c ∨ c = NUL)
      (cInputString (prvUARTCommandConsoleTask fuel rx (power_on s)).2)
  ∧ (prvUARTCommandConsoleTask fuel rx (power_on s)).1 ≠ Fault WriteOutOfBounds
  ∧ (∀ f, (prvUARTCommandConsoleTask fuel rx (power_on s)).1 = Fault f →
       f = ReadOutOfBounds
       ∧ ucInputIndex (prvUARTCommandConsoleTask fuel rx (power_on s)).2
         = cmdMAX_INPUT_SIZE)
  ∧ ((prvUARTCommandConsoleTask fuel rx (power_on s)).1 = Ok tt →
     ∀ c, is_terminator c = false →
       (iteration fuel (Some c) (prvUARTCommandConsoleTask fuel rx (power_on s)).2).1
       = Ok tt).
Proof.
  rewrite task_run.
  match goal with |- context [serve fuel rx ?w0] =>
    assert (invariant w0) as H0 by apply invariant_log, invariant_power_on;
    pose proof (serve_any fuel rx w0 H0) as H;
    pose proof (λ f, serve_fault fuel rx f w0 H0) as Hf;
    destruct (serve fuel rx w0) as [r w]
  end.
  cbn [fst snd] in *.
  assert (line_invariant w) as [Hi Hsz Hp Hb].
  { destruct r as [[]|f|]; [by apply invariant_line|done..]. }
  do 4 (split; [done|]). split; [|split].
  - intros E. by destruct (Hf _ E).
  - intros f E. destruct (Hf _ E) as (-> & Hfull & _). done.
  - intros ->. intros c Hc.
    destruct (invariant_inv w H) as (line & last & o & s' & tr & -> & Hwf).
    rewrite iteration_run, Hc, log_typing.
    by rewrite edit_line_run by (done || apply Hwf).
Qed.

(** C9.  Backspace and delete, received in a state of the loop: the turn
    completes, ucInputIndex goes down by one and stops at 0, the stored line
    loses exactly its last character, and cInputString holds that line and
    zeros; on the empty line the array is left as it was. *)
Theorem backspace_erases_last fuel c w :
  invariant w → is_backspace c →
  (iteration fuel (Some c) w).1 = Ok tt
  ∧ stored (iteration fuel (Some c) w).2 = take (length (stored w) - 1) (stored w)
  ∧ ucInputIndex (iteration fuel (Some c) w).2 = Z.max 0 (ucInputIndex w - 1)
  ∧ cInputString (iteration fuel (Some c) w).2
    = padded (take (length (stored w) - 1) (stored w))
  ∧ cLastInputString (iteration fuel (Some c) w).2 = cLastInputString w
  ∧ (ucInputIndex w = 0 →
     cInputString (iteration fuel (Some c) w).2 = cInputString w).
Proof.
  intros Hw Hc.
  destruct (invariant_inv w Hw) as (line & last & o & s & tr & -> & Hwf).
  rewrite iteration_run, (backspace_not_terminator c Hc), log_typing.
  rewrite edit_line_run
    by (apply Hwf || by apply backspace_not_terminator).
  unfold spec_feed. apply Is_true_true in Hc. rewrite Hc.
  cbn [fst snd]. rewrite !stored_typing.
  cbn [typing ucInputIndex cInputString cLastInputString].
  repeat split.
  - rewrite length_take. lia.
  - intros Hi. destruct line; [done|]. cbn [length] in Hi. lia.
Qed.

(** C10.  In every state and for every received character, the turn of the
    loop first asks for the receive, waits for it and sends the character
    back ([reception]); whatever else it asks, it asks after that. *)
Theorem echo_precedes_editing fuel c w :
  ∃ rest, uart (iteration fuel (Some c) w).2 = uart w ++ reception c ++ rest.
Proof.
  rewrite iteration_run.
  assert (extends (if is_terminator c then end_of_line fuel else edit_line c)) as H
    by (destruct (is_terminator c); [apply extends_end_of_line|apply extends_edit_line]).
  destruct (H (log (reception c) w)) as [rest ->].
  exists rest. cbn [log uart]. by rewrite app_assoc.
Qed.

End Claims.

(** * The claims on the bench *)

(** C1, the claim as it was stated fails: after the command [a], the
    characters [b] and backspace leave nothing, and the terminator hands
    the interpreter the line [a] again, not the empty line. *)
Lemma empty_line_is_not_dispatched :
  ucInputIndex (run_bench 0 1 (keys "a" ++ [Some CR])).2 = 0
  ∧ spec_edit [] ["b"%char; BS] = []
  ∧ commands (uart (@serve (bench 0) 1 (Some <$> (["b"%char; BS] ++ [CR]))
                      (run_bench 0 1 (keys "a" ++ [Some CR])).2).2)
    = commands (uart (run_bench 0 1 (keys "a" ++ [Some CR])).2) ++ [["a"%char]]
  ∧ ["a"%char] ≠ spec_edit [] ["b"%char; BS].
Proof. vm_compute. repeat split. discriminate. Qed.

Lemma typed_line_is_dispatched_witness :
  ∃ k, commands (uart (@serve (bench 0) 1
                         (Some <$> (["l"; "x"; BS; "s"]%char ++ [CR]))
                         (@power_on (bench 0) 0%nat)).2)
       = replicate (S k) ["l"; "s"]%char.
Proof.
  destruct (@typed_line_is_dispatched (bench 0) 1 ["l"; "x"; BS; "s"]%char CR
              (@power_on (bench 0) 0%nat)) as (k & Hk & _).
  - concrete_invariant.
  - reflexivity.
  - repeat (constructor; [first [by left | by right]|]). constructor.
  - vm_compute. lia.
  - exact I.
  - lia.
  - vm_compute. lia.
  - exists k. exact Hk.
Defined.

(** C2: CR and LF both end the line, and the test for a CR to ignore is
    never reached ([not_terminator_not_CR]): the pair CR LF behind a command
    runs the command twice, and so does the pair LF CR. *)
Theorem crlf_dispatches_twice :
  (run_bench 0 1 (keys "ab" ++ [Some CR; Some LF])).1 = Ok tt
  ∧ commands (uart (run_bench 0 1 (keys "ab" ++ [Some CR; Some LF])).2)
    = [["a"; "b"]%char; ["a"; "b"]%char]
  ∧ (run_bench 0 1 (keys "ab" ++ [Some LF; Some CR])).1 = Ok tt
  ∧ commands (uart (run_bench 0 1 (keys "ab" ++ [Some LF; Some CR])).2)
    = [["a"; "b"]%char; ["a"; "b"]%char].
Proof. vm_compute. done. Qed.

Lemma dispatch_sends_every_chunk_witness :
  ∃ w', @dispatch (bench 2) 3 (@typing (bench 2) ["g"; "o"]%char [] [] 0%nat [])
        = (Ok tt, w')
      ∧ uart w'
        = [EvProcessCommand ["g"; "o"]%char;
           EvTransmit_IT ["g"; "o"; CR; LF]%char 4;
           EvSemaphoreTake xTxCompleteSemaphore 100;
           EvProcessCommand ["g"; "o"]%char;
           EvTransmit_IT ["g"; "o"; CR; LF]%char 4;
           EvSemaphoreTake xTxCompleteSemaphore 100;
           EvProcessCommand ["g"; "o"]%char].
Proof.
  destruct (@dispatch_sends_every_chunk (bench 2) 2 3
              (@typing (bench 2) ["g"; "o"]%char [] [] 0%nat []))
    as (w' & Hrun & Htr & _).
  - vm_compute. exact I.
  - vm_compute. repeat split; discriminate.
  - lia.
  - exists w'. split; [exact Hrun|]. rewrite Htr. reflexivity.
Defined.

Lemma empty_line_repeats_last_command_witness :
  (∃ w'', @iteration (bench 0) 1 (Some LF) (run_bench 0 1 (keys "ab" ++ [Some CR])).2
          = (Ok tt, w'')
        ∧ commands (uart w'') = [["a"; "b"]%char; ["a"; "b"]%char])
  ∧ (∃ w', run_bench 0 1 [Some CR] = (Ok tt, w') ∧ commands (uart w') = [[]]).
Proof.
  split.
  - destruct (proj1 (@empty_line_repeats_last_command (bench 0)) 1%nat CR
                (run_bench 0 1 (keys "ab")).2
                (run_bench 0 1 (keys "ab" ++ [Some CR])).2)
      as (L & HL & _ & Hrepeat).
    + concrete_invariant.
    + exact I.
    + vm_compute. reflexivity.
    + vm_compute in HL. injection HL as <-.
      destruct (Hrepeat 1%nat LF 0%nat) as (w'' & Hrun & Hcmd).
      * exact I.
      * vm_compute. reflexivity.
      * lia.
      * exists w''. split; [exact Hrun|exact Hcmd].
  - destruct (proj2 (@empty_line_repeats_last_command (bench 0)) 1%nat CR 0%nat 0%nat)
      as (w' & Hrun & Hcmd).
    + exact I.
    + vm_compute. reflexivity.
    + lia.
    + exists w'. split; [exact Hrun|exact Hcmd].
Defined.

(** C5: fifty-one printable characters are taken without a fault and fill
    the fifty bytes of cInputString with the first fifty, so that no NUL is
    left in the array.  The terminator behind them then has the string read
    past the end of the array: the interpreter is handed an array with no
    NUL in it, and the strcpy into cLastInputString reads past its end. *)
Theorem full_line_is_read_past_its_end :
  (run_bench 0 1 (replicate 51 (Some "x"%char))).1 = Ok tt
  ∧ (run_bench 0 1 (replicate 51 (Some "x"%char) ++ [Some CR])).1
    = Fault ReadOutOfBounds
  ∧ ucInputIndex (run_bench 0 1 (replicate 51 (Some "x"%char) ++ [Some CR])).2 = 50
  ∧ cInputString (run_bench 0 1 (replicate 51 (Some "x"%char) ++ [Some CR])).2
    = replicate 50 "x"%char
  ∧ terminated (cInputString (run_bench 0 1 (replicate 51 (Some "x"%char) ++ [Some CR])).2)
    = false
  ∧ (@strcpy (bench 0) (replicate 50 NUL) (replicate 50 "x"%char)
       (@power_on (bench 0) 0%nat)).1
    = Fault ReadOutOfBounds.
Proof. vm_compute. done. Qed.

(** C6, the claim as it was stated fails: the Size of
    HAL_UART_Transmit_IT is a uint16_t, and a buffer of 65541 bytes is
    handed to it with the Size 5. *)
Lemma long_buffer_is_cut_to_16_bits :
  uart (@prvSendBuffer (bench 0) (replicate (Z.to_nat 65541) "x"%char) (Z.to_nat 65541)
          (@power_on (bench 0) 0%nat)).2
  = [EvTransmit_IT (replicate (Z.to_nat 65541) "x"%char) 5;
     EvSemaphoreTake xTxCompleteSemaphore 100]
  ∧ (5 < Z.to_nat 65541)%nat.
Proof.
  split; [|lia]. rewrite prvSendBuffer_run. cbn [snd log uart power_on app].
  assert (uint16_t (Z.to_nat 65541) = 5%nat) as E
    by (unfold uint16_t; by rewrite Z2Nat.id by lia).
  destruct (Z.to_nat 65541) as [|n] eqn:En; [lia|].
  unfold transmission. by rewrite E.
Qed.

Lemma prvSendBuffer_paced_witness :
  0 < 1
  ∧ @prvSendBuffer (bench 0) ["o"; "k"]%char 2 (@power_on (bench 0) 0%nat)
    = (Ok tt, @log (bench 0) [EvTransmit_IT ["o"; "k"]%char 2;
                              EvSemaphoreTake xTxCompleteSemaphore 100]
                (@power_on (bench 0) 0%nat))
  ∧ @prvSendBuffer (bench 0) ["o"; "k"]%char 0 (@power_on (bench 0) 0%nat)
    = (Ok tt, @power_on (bench 0) 0%nat).
Proof.
  split; [reflexivity|]. split.
  - destruct (prvSendBuffer_paced nat (paged 0) 128 1 4294967295 eq_refl
                (λ history, Nat.even (length history)) ["o"; "k"]%char 2
                (@power_on (bench 0) 0%nat)) as (Hrun & _).
    exact Hrun.
  - destruct (prvSendBuffer_paced nat (paged 0) 128 1 4294967295 eq_refl
                (λ history, Nat.even (length history)) ["o"; "k"]%char 0
                (@power_on (bench 0) 0%nat)) as (Hrun & _).
    exact Hrun.
Defined.

(** C7: the line of fifty characters.  The terminator behind it hands the
    line to the interpreter, which answers pdFALSE at its first call, so
    the dispatch is complete.  The copy of the line into cLastInputString
    that follows (line 428) finds no NUL in cInputString and reads past its
    end: cLastInputString has not received the line, ucInputIndex is not 0
    and cInputString is not cleared, and the end of output message is not
    sent.  This is the defect of C5. *)
Theorem full_line_is_not_remembered :
  (run_bench 0 1 (replicate 50 (Some "x"%char))).1 = Ok tt
  ∧ (@dispatch (bench 0) 1 (run_bench 0 1 (replicate 50 (Some "x"%char))).2).1 = Ok tt
  ∧ (run_bench 0 1 (replicate 50 (Some "x"%char) ++ [Some CR])).1
    = Fault ReadOutOfBounds
  ∧ commands (uart (run_bench 0 1 (replicate 50 (Some "x"%char) ++ [Some CR])).2)
    = [replicate 50 "x"%char]
  ∧ last (uart (run_bench 0 1 (replicate 50 (Some "x"%char) ++ [Some CR])).2)
    = Some (EvProcessCommand (replicate 50 "x"%char))
  ∧ c_string (cLastInputString
                (run_bench 0 1 (replicate 50 (Some "x"%char) ++ [Some CR])).2) = []
  ∧ ucInputIndex (run_bench 0 1 (replicate 50 (Some "x"%char) ++ [Some CR])).2 = 50
  ∧ cInputString (run_bench 0 1 (replicate 50 (Some "x"%char) ++ [Some CR])).2
    = replicate 50 "x"%char
  ∧ (@remember_and_clear (bench 0)
       (@dispatch (bench 0) 1 (run_bench 0 1 (replicate 50 (Some "x"%char))).2).2).1
    = Fault ReadOutOfBounds.
Proof. vm_compute. done. Qed.

Lemma backspace_erases_last_witness :
  stored (@iteration (bench 0) 1 (Some BS) (run_bench 0 1 (keys "hi")).2).2 = ["h"%char]
  ∧ ucInputIndex (@iteration (bench 0) 1 (Some cmdASCII_DEL) (run_bench 0 1 []).2).2 = 0.
Proof.
  split.
  - destruct (@backspace_erases_last (bench 0) 1 BS (run_bench 0 1 (keys "hi")).2)
      as (_ & Hline & _).
    + concrete_invariant.
    + exact I.
    + rewrite Hline. reflexivity.
  - destruct (@backspace_erases_last (bench 0) 1 cmdASCII_DEL (run_bench 0 1 []).2)
      as (_ & _ & Hi & _).
    + concrete_invariant.
    + exact I.
    + rewrite Hi. reflexivity.
Defined.

(** * The command handlers *)

Section Strings.

Lemma no_NUL_app s t : no_NUL s → no_NUL t → no_NUL (s ++ t).
Proof. intros Hs Ht. apply Forall_app. by split. Qed.

Lemma no_NUL_take n s : no_NUL s → no_NUL (take n s).
Proof. apply Forall_take. Qed.

Lemma no_NUL_c_string s : no_NUL (c_string s).
Proof.
  unfold c_string. induction s as [|c s IH]; [constructor|].
  cbn [strlen]. destruct (Ascii.eqb_spec c NUL) as [->|Hc]; [constructor|].
  cbn [take]. by constructor.
Qed.

Lemma strlen_no_NUL s : no_NUL s → strlen s = length s.
Proof.
  induction 1 as [|c s Hc _ IH]; [done|]. cbn [strlen length].
  apply Ascii.eqb_neq in Hc. by rewrite Hc, IH.
Qed.

Lemma strlen_app_no_NUL s t : no_NUL s → strlen (s ++ NUL :: t) = length s.
Proof.
  induction 1 as [|c s Hc _ IH]; [done|]. cbn [strlen length app].
  apply Ascii.eqb_neq in Hc. by rewrite Hc, IH.
Qed.

Lemma c_string_app_no_NUL s t : no_NUL s → c_string (s ++ NUL :: t) = s.
Proof.
  intros H. unfold c_string. rewrite strlen_app_no_NUL by done.
  by rewrite take_app_length.
Qed.

Lemma terminated_app_no_NUL s t : no_NUL s → terminated (s ++ NUL :: t).
Proof.
  intros H. unfold terminated. rewrite strlen_app_no_NUL by done.
  rewrite length_app. cbn [length]. apply Is_true_true, Nat.ltb_lt. lia.
Qed.

Lemma no_NUL_uint d : no_NUL (list_ascii_of_string (NilEmpty.string_of_uint d)).
Proof.
  induction d; cbn [NilEmpty.string_of_uint list_ascii_of_string];
    [constructor|by constructor..].
Qed.

Lemma no_NUL_decimal n : no_NUL (Commands.decimal n).
Proof.
  unfold Commands.decimal, NilZero.string_of_int, NilZero.string_of_uint.
  destruct (Z.to_int n) as [d|d].
  - destruct d; try apply no_NUL_uint. by repeat constructor.
  - destruct d; cbn [list_ascii_of_string];
      (constructor; [done|]); try apply no_NUL_uint. by repeat constructor.
Qed.

End Strings.

Section Buffers.
Import Commands.

Lemma put_spec dst offset text b :
  put dst offset text = Returns b →
  b = take offset dst ++ text ++ NUL :: drop (offset + length text + 1) dst
  ∧ (offset + length text < length dst)%nat.
Proof.
  unfold put. destruct (Nat.leb_spec (offset + length text + 1) (length dst));
    [|done].
  intros [= <-]. split; [done|lia].
Qed.

Lemma put_length dst offset text b :
  put dst offset text = Returns b → length b = length dst.
Proof.
  intros [-> H]%put_spec.
  rewrite !length_app, length_take. cbn [length]. rewrite length_drop. lia.
Qed.

Lemma put_fits dst offset text :
  (offset + length text < length dst)%nat → ∃ b, put dst offset text = Returns b.
Proof.
  intros H. unfold put.
  destruct (Nat.leb_spec (offset + length text + 1) (length dst)); [|lia].
  by eexists.
Qed.

Lemma put_overflow dst offset text :
  (length dst ≤ offset + length text)%nat →
  put dst offset text = Traps (OutOfBounds WriteOutOfBounds).
Proof.
  intros H. unfold put.
  by destruct (Nat.leb_spec (offset + length text + 1) (length dst)); [lia|].
Qed.

(** What [sprintf] leaves: the text, as a string. *)
Lemma sprintf_spec dst text b :
  no_NUL text → sprintf dst text = Returns b →
  c_string b = text ∧ terminated b ∧ length b = length dst.
Proof.
  intros Ht H. pose proof (put_length _ _ _ _ H) as Hlen.
  apply put_spec in H as [-> _]. cbn [take app] in *.
  split; [by apply c_string_app_no_NUL|]. split; [by apply terminated_app_no_NUL|done].
Qed.

(** What [strncat] leaves: the string of [dst] and, behind it, at most [n]
    characters of the string [src]. *)
Lemma strncat_spec dst src n b :
  strncat dst src n = Returns b →
  c_string b = c_string dst ++ take n (c_string src)
  ∧ terminated b ∧ length b = length dst.
Proof.
  unfold strncat. destruct (terminated dst); [|done]. intros H.
  pose proof (put_length _ _ _ _ H) as Hlen.
  apply put_spec in H as [-> _].
  assert (no_NUL (take (strlen dst) dst ++ take n (c_string src))) as Hno
    by (apply no_NUL_app; [apply no_NUL_c_string|apply no_NUL_take, no_NUL_c_string]).
  rewrite app_assoc in *.
  split; [by apply c_string_app_no_NUL|]. split; [by apply terminated_app_no_NUL|done].
Qed.

Lemma strncat_fits dst src n :
  terminated dst →
  (length (c_string dst) + length (take n (c_string src)) < length dst)%nat →
  ∃ b, strncat dst src n = Returns b.
Proof.
  intros Ht%Is_true_true Hlen. unfold strncat. rewrite Ht. apply put_fits.
  unfold c_string in Hlen at 1. rewrite length_take in Hlen.
  pose proof (strlen_le dst). lia.
Qed.

Lemma strncat_overflow dst src n :
  terminated dst →
  (length dst ≤ length (c_string dst) + length (take n (c_string src)))%nat →
  strncat dst src n = Traps (OutOfBounds WriteOutOfBounds).
Proof.
  intros Ht%Is_true_true Hlen. unfold strncat. rewrite Ht. apply put_overflow.
  unfold c_string in Hlen at 1. rewrite length_take in Hlen.
  pose proof (strlen_le dst). lia.
Qed.

Lemma memset_spec dst c n b :
  memset dst c n = Returns b → length b = length dst.
Proof.
  unfold memset. destruct (Nat.leb_spec n (length dst)); [|done].
  intros [= <-]. rewrite length_app, length_replicate, length_drop. lia.
Qed.

Lemma memset_fits dst c n :
  (n ≤ length dst)%nat → ∃ b, memset dst c n = Returns b.
Proof.
  intros H. unfold memset. destruct (Nat.leb_spec n (length dst)); [|lia].
  by eexists.
Qed.

Lemma c_string_crlf : c_string crlf = crlf.
Proof. done. Qed.

Lemma length_echo_line i p n :
  length (echo_line i p n)
  = (length (decimal i) + 2 + length (take n (c_string p)) + 2)%nat.
Proof.
  unfold echo_line. rewrite !length_app.
  change (length (list_ascii_of_string ": ")) with 2%nat.
  change (length crlf) with 2%nat. lia.
Qed.

End Buffers.

Section Echo.
Import Commands.
Context `{K : Services}.

(** The four writes of an echo line, [memset] to [strncat], on a buffer the
    line fits in. *)
Lemma echo_line_written l p n buf len :
  (len ≤ length buf)%nat → (length (echo_line l p n) < length buf)%nat →
  ∃ b, (∀ (A : Type) (k : list ascii → result A),
          bind (memset buf NUL len) (λ b0,
            bind (sprintf b0 (decimal l ++ list_ascii_of_string ": ")) (λ b1,
              bind (strncat b1 p n) (λ b2,
                bind (strncat b2 crlf (strlen crlf)) k))) = k b)
     ∧ c_string b = echo_line l p n ∧ terminated b ∧ length b = length buf.
Proof.
  intros Hlen Hfit. rewrite length_echo_line in Hfit.
  assert (no_NUL (decimal l ++ list_ascii_of_string ": ")) as Hno
    by (apply no_NUL_app; [apply no_NUL_decimal|by repeat constructor]).
  destruct (memset_fits buf NUL len Hlen) as [b0 H0].
  pose proof (memset_spec _ _ _ _ H0) as Hl0.
  destruct (put_fits b0 0 (decimal l ++ list_ascii_of_string ": ")) as [b1 H1].
  { rewrite length_app. change (length (list_ascii_of_string ": ")) with 2%nat. lia. }
  pose proof (sprintf_spec _ _ _ Hno H1) as (Hs1 & Ht1 & Hl1).
  destruct (strncat_fits b1 p n Ht1) as [b2 H2].
  { rewrite Hs1, length_app. change (length (list_ascii_of_string ": ")) with 2%nat. lia. }
  pose proof (strncat_spec _ _ _ _ H2) as (Hs2 & Ht2 & Hl2).
  destruct (strncat_fits b2 crlf (strlen crlf) Ht2) as [b3 H3].
  { rewrite Hs2, Hs1, !length_app.
    change (length (list_ascii_of_string ": ")) with 2%nat.
    change (length (take (strlen crlf) (c_string crlf))) with 2%nat. lia. }
  pose proof (strncat_spec _ _ _ _ H3) as (Hs3 & Ht3 & Hl3).
  exists b3. split; [|split; [|split; [done|congruence]]].
  - intros A k. rewrite H0. cbn [bind]. unfold sprintf at 1. rewrite H1. cbn [bind].
    rewrite H2. cbn [bind]. by rewrite H3.
  - rewrite Hs3, Hs2, Hs1. unfold echo_line. by rewrite <- !app_assoc.
Qed.

End Echo.

Section Handlers.
Import Commands.
Context `{K : Services}.

Lemma echo_line_overflow (A : Type) l p n buf len (k : list ascii → result A) :
  (length buf ≤ length (echo_line l p n))%nat →
  bind (memset buf NUL len) (λ b0,
    bind (sprintf b0 (decimal l ++ list_ascii_of_string ": ")) (λ b1,
      bind (strncat b1 p n) (λ b2,
        bind (strncat b2 crlf (strlen crlf)) k)))
  = Traps (OutOfBounds WriteOutOfBounds).
Proof.
  intros Hfit. rewrite length_echo_line in Hfit.
  assert (no_NUL (decimal l ++ list_ascii_of_string ": ")) as Hno
    by (apply no_NUL_app; [apply no_NUL_decimal|by repeat constructor]).
  destruct (memset buf NUL len) as [b0|t] eqn:H0.
  2:{ unfold memset in H0. by destruct (_ <=? _)%nat; [|injection H0 as <-]. }
  cbn [bind]. apply memset_spec in H0.
  destruct (sprintf b0 (decimal l ++ list_ascii_of_string ": ")) as [b1|t] eqn:H1.
  2:{ unfold sprintf, put in H1. by destruct (_ <=? _)%nat; [|injection H1 as <-]. }
  cbn [bind]. apply (sprintf_spec _ _ _ Hno) in H1 as (Hs1 & Ht1 & Hl1).
  destruct (decide (length (c_string b1) + length (take n (c_string p)) < length b1)%nat)
    as [Hlt|Hge]; [|by rewrite strncat_overflow by (done || lia)].
  destruct (strncat_fits b1 p n Ht1 Hlt) as [b2 H2]. rewrite H2. cbn [bind].
  apply strncat_spec in H2 as (Hs2 & Ht2 & Hl2).
  rewrite strncat_overflow; [done..|].
  rewrite Hs2, Hs1, !length_app.
  change (length (list_ascii_of_string ": ")) with 2%nat.
  change (length (take (strlen crlf) (c_string crlf))) with 2%nat. lia.
Qed.

Lemma three_parameter_echo_first_call buf len cmd :
  (length three_parameters_header < length buf)%nat →
  ∃ b, prvThreeParameterEchoCommand 0 buf len cmd = Returns (1, b, pdPASS)
     ∧ c_string b = three_parameters_header ∧ length b = length buf.
Proof.
  intros H. unfold prvThreeParameterEchoCommand. cbn [Z.eqb].
  destruct (put_fits buf 0 three_parameters_header H) as [b Hb].
  unfold sprintf at 1. rewrite Hb. cbn [bind]. exists b. split; [done|].
  apply sprintf_spec in Hb as (? & _ & ?); [done|by repeat constructor].
Qed.

Lemma three_parameter_echo_line_call l p n buf len cmd :
  l ≠ 0 → FreeRTOS_CLIGetParameter cmd l = Some (p, n) →
  (len ≤ length buf)%nat → (length (echo_line l p n) < length buf)%nat →
  l < LONG_MAX →
  ∃ b, prvThreeParameterEchoCommand l buf len cmd
       = Returns (if l =? 3 then 0 else l + 1, b, if l =? 3 then pdFALSE else pdTRUE)
     ∧ c_string b = echo_line l p n ∧ length b = length buf.
Proof.
  intros Hl Hget Hlen Hfit Hmax. unfold prvThreeParameterEchoCommand.
  apply Z.eqb_neq in Hl. rewrite Hl, Hget.
  destruct (echo_line_written l p n buf len) as (b & E & Hs & _ & Hb); [done..|].
  rewrite E. exists b. split; [|done]. destruct (l =? 3); [done|].
  unfold increment. apply Z.ltb_lt in Hmax. by rewrite Hmax.
Qed.

Lemma parameter_echo_first_call buf len cmd :
  (length parameters_header < length buf)%nat →
  ∃ b, prvParameterEchoCommand 0 buf len cmd = Returns (1, b, pdPASS)
     ∧ c_string b = parameters_header ∧ length b = length buf.
Proof.
  intros H. unfold prvParameterEchoCommand. cbn [Z.eqb].
  destruct (put_fits buf 0 parameters_header H) as [b Hb].
  unfold sprintf at 1. rewrite Hb. cbn [bind]. exists b. split; [done|].
  apply sprintf_spec in Hb as (? & _ & ?); [done|by repeat constructor].
Qed.

Lemma parameter_echo_line_call l p n buf len cmd :
  l ≠ 0 → FreeRTOS_CLIGetParameter cmd l = Some (p, n) →
  (len ≤ length buf)%nat → (length (echo_line l p n) < length buf)%nat →
  l < LONG_MAX →
  ∃ b, prvParameterEchoCommand l buf len cmd = Returns (l + 1, b, pdTRUE)
     ∧ c_string b = echo_line l p n ∧ length b = length buf.
Proof.
  intros Hl Hget Hlen Hfit Hmax. unfold prvParameterEchoCommand.
  apply Z.eqb_neq in Hl. rewrite Hl, Hget.
  destruct (echo_line_written l p n buf len) as (b & E & Hs & _ & Hb); [done..|].
  rewrite E. exists b. split; [|done].
  unfold increment. apply Z.ltb_lt in Hmax. by rewrite Hmax.
Qed.

Lemma parameter_echo_last_call l buf len cmd :
  l ≠ 0 → FreeRTOS_CLIGetParameter cmd l = None → (0 < length buf)%nat →
  ∃ b, prvParameterEchoCommand l buf len cmd = Returns (0, b, pdFALSE)
     ∧ c_string b = [] ∧ length b = length buf.
Proof.
  intros Hl Hget Hlen. unfold prvParameterEchoCommand.
  apply Z.eqb_neq in Hl. rewrite Hl, Hget.
  destruct buf as [|c rest]; [cbn [length] in Hlen; lia|].
  by exists (NUL :: rest).
Qed.

(** X1.  On a command with three parameters and a write buffer the lines
    fit in, four calls of [prvThreeParameterEchoCommand], the first with the
    static at 0, give the header with pdPASS, the lines of parameters 1 and 2
    with pdTRUE and the line of parameter 3 with pdFALSE, and leave the
    static at 0 again. *)
Theorem three_parameter_echo_cycle cmd buf len p1 n1 p2 n2 p3 n3 :
  FreeRTOS_CLIGetParameter cmd 1 = Some (p1, n1) →
  FreeRTOS_CLIGetParameter cmd 2 = Some (p2, n2) →
  FreeRTOS_CLIGetParameter cmd 3 = Some (p3, n3) →
  (len ≤ length buf)%nat →
  (length three_parameters_header < length buf)%nat →
  (length (echo_line 1 p1 n1) < length buf)%nat →
  (length (echo_line 2 p2 n2) < length buf)%nat →
  (length (echo_line 3 p3 n3) < length buf)%nat →
  ∃ buf',
    responses prvThreeParameterEchoCommand 4 0 buf len cmd
    = Returns ([(three_parameters_header, pdPASS);
                (echo_line 1 p1 n1, pdTRUE);
                (echo_line 2 p2 n2, pdTRUE);
                (echo_line 3 p3 n3, pdFALSE)], 0, buf')
    ∧ length buf' = length buf.
Proof.
  intros H1 H2 H3 Hlen Hh Hf1 Hf2 Hf3.
  destruct (three_parameter_echo_first_call buf len cmd Hh) as (b0 & E0 & S0 & L0).
  destruct (three_parameter_echo_line_call 1 p1 n1 b0 len cmd) as (b1 & E1 & S1 & L1);
    [done|done|lia|lia|done|].
  destruct (three_parameter_echo_line_call 2 p2 n2 b1 len cmd) as (b2 & E2 & S2 & L2);
    [done|done|lia|lia|done|].
  destruct (three_parameter_echo_line_call 3 p3 n3 b2 len cmd) as (b3 & E3 & S3 & L3);
    [done|done|lia|lia|done|].
  change (if 1 =? 3 then 0 else 1 + 1) with 2 in E1.
  change (if 1 =? 3 then pdFALSE else pdTRUE) with pdTRUE in E1.
  change (if 2 =? 3 then 0 else 2 + 1) with 3 in E2.
  change (if 2 =? 3 then pdFALSE else pdTRUE) with pdTRUE in E2.
  change (if 3 =? 3 then 0 else 3 + 1) with 0 in E3.
  change (if 3 =? 3 then pdFALSE else pdTRUE) with pdFALSE in E3.
  exists b3. cbn [responses]. rewrite E0. cbn [bind]. rewrite E1. cbn [bind].
  rewrite E2. cbn [bind]. rewrite E3. cbn [bind].
  rewrite S0, S1, S2, S3. split; [done|lia].
Qed.

(** What the four writes leave when they all succeed. *)
Lemma echo_line_returned (A : Type) l p n buf len (k : list ascii → result A) a :
  bind (memset buf NUL len) (λ b0,
    bind (sprintf b0 (decimal l ++ list_ascii_of_string ": ")) (λ b1,
      bind (strncat b1 p n) (λ b2,
        bind (strncat b2 crlf (strlen crlf)) k))) = Returns a →
  ∃ b, k b = Returns a ∧ c_string b = echo_line l p n ∧ terminated b
     ∧ length b = length buf.
Proof.
  assert (no_NUL (decimal l ++ list_ascii_of_string ": ")) as Hno
    by (apply no_NUL_app; [apply no_NUL_decimal|by repeat constructor]).
  destruct (memset buf NUL len) as [b0|] eqn:H0; [|done]. cbn [bind].
  destruct (sprintf b0 (decimal l ++ list_ascii_of_string ": ")) as [b1|] eqn:H1;
    [|done]. cbn [bind].
  destruct (strncat b1 p n) as [b2|] eqn:H2; [|done]. cbn [bind].
  destruct (strncat b2 crlf (strlen crlf)) as [b3|] eqn:H3; [|done]. cbn [bind].
  intros Hk. exists b3. split; [done|].
  apply memset_spec in H0. apply (sprintf_spec _ _ _ Hno) in H1 as (Hs1 & _ & Hl1).
  apply strncat_spec in H2 as (Hs2 & _ & Hl2).
  apply strncat_spec in H3 as (Hs3 & Ht3 & Hl3).
  split; [|split; [done|congruence]].
  rewrite Hs3, Hs2, Hs1. unfold echo_line. by rewrite <- !app_assoc.
Qed.

Lemma increment_spec l l' : increment l = Returns l' → l' = l + 1.
Proof. unfold increment. destruct (l <? LONG_MAX); [|done]. by intros [= <-]. Qed.

(** X4.  Whenever [prvThreeParameterEchoCommand] returns, called with a
    static that is not negative: the static it leaves is not negative, it is
    0 exactly when pdFALSE is returned, and the write buffer, as long as
    before, holds a string. *)
Theorem three_parameter_echo_returns l buf len cmd l' b xReturn :
  0 ≤ l →
  prvThreeParameterEchoCommand l buf len cmd = Returns (l', b, xReturn) →
  0 ≤ l' ∧ (xReturn = pdFALSE ↔ l' = 0) ∧ terminated b ∧ length b = length buf.
Proof.
  intros Hl. unfold prvThreeParameterEchoCommand.
  destruct (Z.eqb_spec l 0) as [->|Hl0].
  - destruct (sprintf buf three_parameters_header) as [b0|] eqn:H0; [|done].
    cbn [bind]. intros [= <- <- <-].
    apply sprintf_spec in H0 as (_ & ? & ?); [|by repeat constructor].
    by repeat split.
  - destruct (FreeRTOS_CLIGetParameter cmd l) as [[p n]|]; [|done].
    intros (b3 & Hk & _ & Ht & Hlen)%echo_line_returned.
    destruct (Z.eqb_spec l 3) as [->|Hl3].
    + injection Hk as <- <- <-. by repeat split.
    + destruct (increment l) as [l1|] eqn:Hinc; [|done]. cbn [bind] in Hk.
      injection Hk as <- <- <-. apply increment_spec in Hinc as ->.
      unfold pdTRUE, pdFALSE. repeat split; (done || lia).
Qed.

(** X5.  The same of [prvParameterEchoCommand]. *)
Theorem parameter_echo_returns l buf len cmd l' b xReturn :
  0 ≤ l →
  prvParameterEchoCommand l buf len cmd = Returns (l', b, xReturn) →
  0 ≤ l' ∧ (xReturn = pdFALSE ↔ l' = 0) ∧ terminated b ∧ length b = length buf.
Proof.
  intros Hl. unfold prvParameterEchoCommand.
  destruct (Z.eqb_spec l 0) as [->|Hl0].
  - destruct (sprintf buf parameters_header) as [b0|] eqn:H0; [|done].
    cbn [bind]. intros [= <- <- <-].
    apply sprintf_spec in H0 as (_ & ? & ?); [|by repeat constructor].
    by repeat split.
  - destruct (FreeRTOS_CLIGetParameter cmd l) as [[p n]|].
    + intros (b3 & Hk & _ & Ht & Hlen)%echo_line_returned.
      destruct (increment l) as [l1|] eqn:Hinc; [|done]. cbn [bind] in Hk.
      injection Hk as <- <- <-. apply increment_spec in Hinc as ->.
      unfold pdTRUE, pdFALSE. repeat split; (done || lia).
    + destruct buf as [|c rest]; [done|]. intros [= <- <- <-].
      by repeat split.
Qed.

(** The calls of [prvParameterEchoCommand] from parameter [i] on, when [m]
    parameters are left. *)
Lemma parameter_echo_tail (params : nat → list ascii * nat) k cmd len size :
  (∀ i, (1 ≤ i ≤ k)%nat →
        FreeRTOS_CLIGetParameter cmd (Z.of_nat i) = Some (params i)) →
  FreeRTOS_CLIGetParameter cmd (Z.of_nat (k + 1)) = None →
  (len ≤ size)%nat → (0 < size)%nat →
  (∀ i, (1 ≤ i ≤ k)%nat →
        (length (echo_line (Z.of_nat i) (params i).1 (params i).2) < size)%nat) →
  Z.of_nat k < LONG_MAX →
  ∀ m i buf, (1 ≤ i)%nat → (i + m = k + 1)%nat → length buf = size →
  ∃ buf',
    responses prvParameterEchoCommand (m + 1) (Z.of_nat i) buf len cmd
    = Returns (((λ j, (echo_line (Z.of_nat j) (params j).1 (params j).2, pdTRUE))
                  <$> seq i m)
               ++ [([], pdFALSE)], 0, buf')
    ∧ length buf' = size.
Proof.
  intros Hget Hend Hlen Hsize Hfit Hmax.
  induction m as [|m IH]; intros i buf Hi Him Hbuf.
  - replace i with (k + 1)%nat by lia.
    destruct (parameter_echo_last_call (Z.of_nat (k + 1)) buf len cmd) as (b & E & Hs & Hb);
      [lia|done|lia|].
    exists b. cbn [responses Nat.add seq fmap list_fmap app].
    rewrite E. cbn [bind]. rewrite Hs. split; [done|lia].
  - specialize (Hget i ltac:(lia)). specialize (Hfit i ltac:(lia)).
    destruct (params i) as [p n] eqn:Hp. cbn [fst snd] in Hfit.
    destruct (parameter_echo_line_call (Z.of_nat i) p n buf len cmd) as (b & E & Hs & Hb);
      [lia|done|lia|lia|lia|].
    destruct (IH (S i) b) as (buf' & E' & Hb'); [lia|lia|lia|].
    exists buf'. split; [|done].
    change (S m + 1)%nat with (S (m + 1)). cbn [responses].
    rewrite E. cbn [bind].
    replace (Z.of_nat i + 1) with (Z.of_nat (S i)) by lia.
    rewrite E'. cbn [bind seq fmap list_fmap app]. by rewrite Hs, Hp.
Qed.

(** X3.  On a command with [k] parameters, [k + 2] calls of
    [prvParameterEchoCommand], the first with the static at 0, give the
    header with pdPASS, one line a parameter with pdTRUE, in order, and then
    the empty string with pdFALSE, and leave the static at 0 again. *)
Theorem parameter_echo_cycle (params : nat → list ascii * nat) k cmd buf len :
  (∀ i, (1 ≤ i ≤ k)%nat →
        FreeRTOS_CLIGetParameter cmd (Z.of_nat i) = Some (params i)) →
  FreeRTOS_CLIGetParameter cmd (Z.of_nat (k + 1)) = None →
  (len ≤ length buf)%nat →
  (length parameters_header < length buf)%nat →
  (∀ i, (1 ≤ i ≤ k)%nat →
        (length (echo_line (Z.of_nat i) (params i).1 (params i).2) < length buf)%nat) →
  Z.of_nat k < LONG_MAX →
  ∃ buf',
    responses prvParameterEchoCommand (k + 2) 0 buf len cmd
    = Returns ((parameters_header, pdPASS)
               :: ((λ j, (echo_line (Z.of_nat j) (params j).1 (params j).2, pdTRUE))
                     <$> seq 1 k)
               ++ [([], pdFALSE)], 0, buf')
    ∧ length buf' = length buf.
Proof.
  intros Hget Hend Hlen Hh Hfit Hmax.
  destruct (parameter_echo_first_call buf len cmd Hh) as (b0 & E0 & S0 & L0).
  destruct (parameter_echo_tail params k cmd len (length buf) Hget Hend Hlen
              ltac:(lia) Hfit Hmax k 1%nat b0) as (buf' & E & Hb); [lia|lia|done|].
  exists buf'. split; [|done].
  replace (k + 2)%nat with (S (k + 1)) by lia. cbn [responses].
  rewrite E0. cbn [bind]. change 1 with (Z.of_nat 1). rewrite E. cbn [bind].
  by rewrite S0.
Qed.

(** X2.  On a command with [k] parameters, fewer than three,
    [prvThreeParameterEchoCommand] returns [k + 1] times, never with
    pdFALSE, and fails its assertion in call [k + 2]. *)
Theorem three_parameter_echo_asserts (params : nat → list ascii * nat) k cmd buf len :
  (k < 3)%nat →
  (∀ i, (1 ≤ i ≤ k)%nat →
        FreeRTOS_CLIGetParameter cmd (Z.of_nat i) = Some (params i)) →
  FreeRTOS_CLIGetParameter cmd (Z.of_nat (k + 1)) = None →
  (len ≤ length buf)%nat →
  (length three_parameters_header < length buf)%nat →
  (∀ i, (1 ≤ i ≤ k)%nat →
        (length (echo_line (Z.of_nat i) (params i).1 (params i).2) < length buf)%nat) →
  (∃ rs b, responses prvThreeParameterEchoCommand (k + 1) 0 buf len cmd
           = Returns (rs, Z.of_nat (k + 1), b)
         ∧ Forall (λ r, r.2 ≠ pdFALSE) rs)
  ∧ responses prvThreeParameterEchoCommand (k + 2) 0 buf len cmd = Traps AssertFailed.
Proof.
  intros Hk Hget Hend Hlen Hh Hfit.
  destruct (three_parameter_echo_first_call buf len cmd Hh) as (b0 & E0 & S0 & L0).
  assert (∀ l b, (1 ≤ l ≤ k)%nat → length b = length buf →
            ∃ b', prvThreeParameterEchoCommand (Z.of_nat l) b len cmd
                  = Returns (Z.of_nat (l + 1), b', pdTRUE)
                ∧ length b' = length buf) as Hline.
  { intros l b Hl Hb. specialize (Hget l Hl). specialize (Hfit l Hl).
    destruct (params l) as [p n]. cbn [fst snd] in Hfit.
    destruct (three_parameter_echo_line_call (Z.of_nat l) p n b len cmd) as (b' & E & _ & Hb');
      [lia|done|lia|lia|unfold LONG_MAX; lia|].
    exists b'. split; [|lia]. rewrite E.
    destruct (Z.eqb_spec (Z.of_nat l) 3); [lia|]. do 3 f_equal. lia. }
  assert (∀ l b, l = (k + 1)%nat →
            prvThreeParameterEchoCommand (Z.of_nat l) b len cmd = Traps AssertFailed)
    as Hassert.
  { intros l b ->. unfold prvThreeParameterEchoCommand.
    destruct (Z.eqb_spec (Z.of_nat (k + 1)) 0); [lia|]. by rewrite Hend. }
  destruct k as [|[|[|k]]]; [| | |lia].
  - split.
    + exists [(c_string b0, pdPASS)], b0. cbn [responses Nat.add]. rewrite E0.
      cbn [bind]. split; [done|]. by repeat constructor.
    + cbn [responses Nat.add]. rewrite E0. cbn [bind].
      change 1 with (Z.of_nat 1). by rewrite Hassert.
  - destruct (Hline 1%nat b0) as (b1 & E1 & L1); [lia|done|].
    change (Z.of_nat 1) with 1 in E1. change (Z.of_nat (1 + 1)) with 2 in E1.
    split.
    + exists [(c_string b0, pdPASS); (c_string b1, pdTRUE)], b1.
      cbn [responses Nat.add]. rewrite E0. cbn [bind]. rewrite E1. cbn [bind].
      split; [done|]. by repeat constructor.
    + cbn [responses Nat.add]. rewrite E0. cbn [bind]. rewrite E1. cbn [bind].
      change 2 with (Z.of_nat 2). by rewrite Hassert.
  - destruct (Hline 1%nat b0) as (b1 & E1 & L1); [lia|done|].
    destruct (Hline 2%nat b1) as (b2 & E2 & L2); [lia|done|].
    change (Z.of_nat 1) with 1 in E1. change (Z.of_nat (1 + 1)) with 2 in E1.
    change (Z.of_nat 2) with 2 in E2. change (Z.of_nat (2 + 1)) with 3 in E2.
    split.
    + exists [(c_string b0, pdPASS); (c_string b1, pdTRUE); (c_string b2, pdTRUE)], b2.
      cbn [responses Nat.add]. rewrite E0. cbn [bind]. rewrite E1. cbn [bind].
      rewrite E2. cbn [bind]. split; [done|]. by repeat constructor.
    + cbn [responses Nat.add]. rewrite E0. cbn [bind]. rewrite E1. cbn [bind].
      rewrite E2. cbn [bind]. change 3 with (Z.of_nat 3). by rewrite Hassert.
Qed.

(** X6.  Neither echo handler looks at the length of the write buffer: for
    a parameter whose line, with its NUL, does not fit, the call writes past
    the end of the buffer. *)
Theorem echo_line_overflows l p n buf len cmd :
  l ≠ 0 → FreeRTOS_CLIGetParameter cmd l = Some (p, n) →
  (length buf ≤ length (echo_line l p n))%nat →
  prvParameterEchoCommand l buf len cmd = Traps (OutOfBounds WriteOutOfBounds)
  ∧ prvThreeParameterEchoCommand l buf len cmd = Traps (OutOfBounds WriteOutOfBounds).
Proof.
  intros Hl%Z.eqb_neq Hget Hfit.
  unfold prvParameterEchoCommand, prvThreeParameterEchoCommand.
  rewrite Hl, Hget. split; by apply echo_line_overflow.
Qed.

Lemma listing_written buf header text :
  no_NUL header → (length (header ++ c_string text) < length buf)%nat →
  ∃ b, bind (strcpy buf header) (λ b0, put b0 (strlen header) (c_string text))
       = Returns b
     ∧ c_string b = header ++ c_string text ∧ terminated b.
Proof.
  intros Hno Hfit. rewrite length_app in Hfit.
  assert (c_string header = header) as Hh
    by (unfold c_string; rewrite strlen_no_NUL by done; apply firstn_all).
  destruct (put_fits buf 0 header) as [b0 H0]; [lia|].
  pose proof (put_length _ _ _ _ H0) as L0.
  unfold strcpy. rewrite Hh, H0. cbn [bind].
  apply put_spec in H0 as [-> _].
  change (take 0 buf) with (@nil ascii) in *. cbn [app] in *.
  rewrite (strlen_no_NUL header) by done.
  destruct (put_fits (header ++ NUL :: drop (0 + length header + 1) buf)
              (length header) (c_string text)) as [b H]; [rewrite L0; lia|].
  exists b. split; [done|]. apply put_spec in H as [-> _].
  rewrite take_app_length, app_assoc.
  assert (no_NUL (header ++ c_string text))
    by (apply no_NUL_app; [done|apply no_NUL_c_string]).
  split; [by apply c_string_app_no_NUL|by apply terminated_app_no_NUL].
Qed.

Lemma listing_overflows buf header text :
  no_NUL header → (length buf ≤ length (header ++ c_string text))%nat →
  bind (strcpy buf header) (λ b0, put b0 (strlen header) (c_string text))
  = Traps (OutOfBounds WriteOutOfBounds).
Proof.
  intros Hno Hfit. rewrite length_app in Hfit.
  assert (c_string header = header) as Hh
    by (unfold c_string; rewrite strlen_no_NUL by done; apply firstn_all).
  unfold strcpy. rewrite Hh.
  destruct (put buf 0 header) as [b0|t] eqn:H0.
  2:{ unfold put in H0. by destruct (_ <=? _)%nat; [|injection H0 as <-]. }
  cbn [bind]. pose proof (put_length _ _ _ _ H0) as L0.
  rewrite strlen_no_NUL by done. apply put_overflow. lia.
Qed.

Lemma no_NUL_headers : no_NUL pcHeader_task_stats ∧ no_NUL pcHeader_run_time_stats.
Proof. split; by repeat constructor. Qed.

(** X7.  [prvTaskStatsCommand], on a buffer that its header and the task
    listing of the kernel fit in, leaves the header with the listing behind
    it as one string and returns pdFALSE; and so does
    [prvRunTimeStatsCommand], on a buffer that its own header and the run
    time listing fit in. *)
Theorem stats_commands_return_one_listing buf len cmd :
  ((length (pcHeader_task_stats ++ c_string vTaskList) < length buf)%nat →
   ∃ b, prvTaskStatsCommand buf len cmd = Returns (b, pdFALSE)
      ∧ c_string b = pcHeader_task_stats ++ c_string vTaskList ∧ terminated b)
  ∧ ((length (pcHeader_run_time_stats ++ c_string vTaskGetRunTimeStats) < length buf)%nat →
     ∃ b, prvRunTimeStatsCommand buf len cmd = Returns (b, pdFALSE)
        ∧ c_string b = pcHeader_run_time_stats ++ c_string vTaskGetRunTimeStats
        ∧ terminated b).
Proof.
  destruct no_NUL_headers as [Hn1 Hn2]. split.
  - intros H1.
    destruct (listing_written buf _ vTaskList Hn1 H1) as (b & E & Hs & Ht).
    exists b. split; [|done]. unfold prvTaskStatsCommand.
    unfold bind in *.
    destruct (strcpy buf pcHeader_task_stats) as [b0|]; [|done]. by rewrite E.
  - intros H2.
    destruct (listing_written buf _ vTaskGetRunTimeStats Hn2 H2) as (b & E & Hs & Ht).
    exists b. split; [|done]. unfold prvRunTimeStatsCommand.
    unfold bind in *.
    destruct (strcpy buf pcHeader_run_time_stats) as [b0|]; [|done]. by rewrite E.
Qed.

(** X8.  [prvTaskStatsCommand], on a buffer that its header and the task
    listing do not fit in, with the NUL, writes past the end of the buffer;
    and so does [prvRunTimeStatsCommand], on a buffer that its own header
    and the run time listing do not fit in. *)
Theorem stats_commands_overflow buf len cmd :
  ((length buf ≤ length (pcHeader_task_stats ++ c_string vTaskList))%nat →
   prvTaskStatsCommand buf len cmd = Traps (OutOfBounds WriteOutOfBounds))
  ∧ ((length buf ≤ length (pcHeader_run_time_stats ++ c_string vTaskGetRunTimeStats))%nat →
     prvRunTimeStatsCommand buf len cmd = Traps (OutOfBounds WriteOutOfBounds)).
Proof.
  destruct no_NUL_headers as [Hn1 Hn2]. split.
  - intros H1. pose proof (listing_overflows buf _ vTaskList Hn1 H1) as E.
    unfold prvTaskStatsCommand.
    unfold bind in *.
    destruct (strcpy buf pcHeader_task_stats) as [b0|]; [by rewrite E|].
    by injection E as ->.
  - intros H2. pose proof (listing_overflows buf _ vTaskGetRunTimeStats Hn2 H2) as E.
    unfold prvRunTimeStatsCommand.
    unfold bind in *.
    destruct (strcpy buf pcHeader_run_time_stats) as [b0|]; [by rewrite E|].
    by injection E as ->.
Qed.

End Handlers.

(** * More on the console task *)

Section Console_more.
Context `{P : Platform}.

Lemma iteration_lines fuel rx w :
  invariant w →
  ∃ k L, commands (uart (iteration fuel rx w).2) = commands (uart w) ++ replicate k L
       ∧ Forall printable L ∧ (length L ≤ capacity)%nat
       ∧ ((iteration fuel rx w).1 = Ok tt → (length L < capacity)%nat).
Proof.
  intros Hw. destruct rx as [c|].
  2:{ rewrite iteration_idle. exists 0%nat, []. cbn [snd log uart replicate length].
      rewrite commands_app, capacity_50.
      split; [done|]. split; [constructor|]. split; lia. }
  destruct (invariant_inv w Hw) as (line & last & o & s & tr & -> & Hwf).
  rewrite iteration_run, log_typing. cbn [typing uart].
  destruct (is_terminator c) eqn:Hc.
  - destruct (end_of_line_any fuel line last o s (tr ++ reception c) Hwf)
      as (r & w' & k & -> & Hcmd & _ & Hr).
    rewrite commands_app, commands_reception, app_nil_r in Hcmd.
    exists k, (dispatched_line line last). cbn [fst snd].
    split; [done|].
    assert (Forall printable (dispatched_line line last)
            ∧ (length (dispatched_line line last) ≤ capacity)%nat) as [HL HLlen].
    { destruct Hwf as [Hl Hlen Hsz Ht Hp]. destruct line; [|done].
      split; [done|]. pose proof (terminated_length last Ht).
      cbn [dispatched_line]. lia. }
    split; [done|]. split; [done|]. intros ->. by destruct Hr as (_ & Hlt & _).
  - rewrite edit_line_run by (done || apply Hwf). exists 0%nat, [].
    cbn [snd typing uart replicate length]. rewrite capacity_50.
    rewrite commands_app, commands_reception.
    split; [done|]. split; [constructor|]. split; lia.
Qed.

Lemma serve_lines fuel rx : ∀ w,
  invariant w →
  (Forall (λ L, Forall printable L ∧ (length L ≤ capacity)%nat) (commands (uart w)) →
   Forall (λ L, Forall printable L ∧ (length L ≤ capacity)%nat)
     (commands (uart (serve fuel rx w).2)))
  ∧ ((serve fuel rx w).1 = Ok tt →
     Forall (λ L, (length L < capacity)%nat) (commands (uart w)) →
     Forall (λ L, (length L < capacity)%nat) (commands (uart (serve fuel rx w).2))).
Proof.
  induction rx as [|r rx IH]; intros w Hw; [done|].
  cbn [serve]. unfold bind.
  pose proof (iteration_any fuel r w Hw) as Hinv.
  destruct (iteration_lines fuel r w Hw) as (k & L & Hcmd & HL & Hle & Hlt).
  destruct (iteration fuel r w) as [[[]|f|] w']; cbn [fst snd] in *.
  - destruct (IH w' Hinv) as [IH1 IH2]. split.
    + intros Hall. apply IH1. rewrite Hcmd. apply Forall_app.
      split; [done|]. by apply Forall_replicate.
    + intros Hok Hall. apply IH2; [done|]. rewrite Hcmd. apply Forall_app.
      split; [done|]. apply Forall_replicate. by apply Hlt.
  - split; [|done]. intros Hall. rewrite Hcmd. apply Forall_app.
    split; [done|]. by apply Forall_replicate.
  - split; [|done]. intros Hall. rewrite Hcmd. apply Forall_app.
    split; [done|]. by apply Forall_replicate.
Qed.

(** X10.  From power on, for every received sequence and every interpreter:
    each command line the interpreter is handed, the bytes of cInputString
    in front of its first NUL, is made of printable characters, 50 at most;
    and in a run that comes to its end every one of them is shorter than
    the array, so that the array it was read from held the NUL behind it. *)
Theorem dispatched_lines_are_printable fuel rx s :
  Forall (λ L, Forall printable L ∧ (length L ≤ Z.to_nat cmdMAX_INPUT_SIZE)%nat)
    (commands (uart (prvUARTCommandConsoleTask fuel rx (power_on s)).2))
  ∧ ((prvUARTCommandConsoleTask fuel rx (power_on s)).1 = Ok tt →
     Forall (λ L, (length L < Z.to_nat cmdMAX_INPUT_SIZE)%nat)
       (commands (uart (prvUARTCommandConsoleTask fuel rx (power_on s)).2))).
Proof.
  rewrite task_run.
  match goal with |- context [serve fuel rx ?w0] =>
    assert (invariant w0) as H0 by apply invariant_log, invariant_power_on;
    assert (commands (uart w0) = []) as Hnone
      by (cbn [log uart power_on]; by rewrite !commands_app, commands_transmission);
    destruct (serve_lines fuel rx w0 H0) as [H1 H2]
  end.
  rewrite Hnone in *. split.
  - apply H1. constructor.
  - intros Hok. apply H2; [done|constructor].
Qed.

(** X9.  Characters that do not end the line, received in a state of the
    loop, all complete their turn; the stored line then is the one the
    specification's editor gives ([spec_edit]: control characters ignored,
    printable characters dropped at the capacity), nothing else of the state
    changes, the trace grows by the receive and echo of each character, and
    the interpreter is not called. *)
Theorem line_editor_refines_spec fuel cs w :
  invariant w → Forall (λ c, is_terminator c = false) cs →
  serve fuel (Some <$> cs) w
  = (Ok tt, typing (spec_edit (stored w) cs) (cLastInputString w)
              (pcOutputString w) (cli w) (uart w ++ flat_map reception cs))
  ∧ stored (serve fuel (Some <$> cs) w).2 = spec_edit (stored w) cs
  ∧ commands (uart (serve fuel (Some <$> cs) w).2) = commands (uart w).
Proof.
  intros Hw Hcs.
  destruct (invariant_inv w Hw) as (line & last & o & s & tr & -> & Hwf).
  rewrite serve_edit by done. rewrite !stored_typing.
  cbn [snd typing cLastInputString pcOutputString cli uart].
  split; [done|]. split; [by rewrite stored_typing|].
  by rewrite commands_app, commands_receptions, app_nil_r.
Qed.

(** X11.  A terminator, received in a state of the loop, reads past the end
    of cInputString only when the input line is full; on the full line its
    turn never completes, and it reads past the end as soon as the
    interpreter has answered pdFALSE.  It never writes past the end of an
    array before that. *)
Theorem terminator_faults_iff_line_full fuel c w :
  invariant w → is_terminator c →
  ((iteration fuel (Some c) w).1 = Fault ReadOutOfBounds
   → ucInputIndex w = cmdMAX_INPUT_SIZE)
  ∧ (ucInputIndex w = cmdMAX_INPUT_SIZE → (iteration fuel (Some c) w).1 ≠ Ok tt)
  ∧ (∀ n, has_more n (cli w) (stored w) (pcOutputString w) → (n < fuel)%nat →
       ucInputIndex w = cmdMAX_INPUT_SIZE →
       (iteration fuel (Some c) w).1 = Fault ReadOutOfBounds)
  ∧ (iteration fuel (Some c) w).1 ≠ Fault WriteOutOfBounds.
Proof.
  intros Hw Hc%Is_true_true.
  destruct (invariant_inv w Hw) as (line & last & o & s & tr & -> & Hwf).
  rewrite stored_typing.
  rewrite iteration_run, Hc, log_typing. cbn [typing ucInputIndex cli pcOutputString].
  split; [|split; [|split]].
  - destruct (end_of_line_any fuel line last o s (tr ++ reception c) Hwf)
      as (r & w' & k & -> & _ & _ & Hr). cbn [fst].
    intros ->. destruct Hr as (_ & Hfull & _). by rewrite Hfull.
  - destruct (end_of_line_any fuel line last o s (tr ++ reception c) Hwf)
      as (r & w' & k & -> & _ & _ & Hr). cbn [fst].
    intros Hfull ->. destruct Hr as (_ & HLlen & _).
    assert (dispatched_line line last = line) as HL
      by (destruct line; [done|done]).
    rewrite HL in HLlen. unfold capacity in HLlen. lia.
  - intros n Hmore Hfuel Hfull.
    by rewrite (end_of_line_full_run n) by (done || unfold capacity; lia).
  - destruct (end_of_line_any fuel line last o s (tr ++ reception c) Hwf)
      as (r & w' & k & -> & _ & _ & Hr). cbn [fst].
    intros ->. by destruct Hr as (? & _).
Qed.

(** X12.  A run of the task from power on that ends in a fault ends in the
    read past the end of cInputString, with ucInputIndex at the capacity and
    no NUL in the array. *)
Theorem run_faults_only_on_full_line fuel rx s f :
  (prvUARTCommandConsoleTask fuel rx (power_on s)).1 = Fault f →
  f = ReadOutOfBounds
  ∧ ucInputIndex (prvUARTCommandConsoleTask fuel rx (power_on s)).2 = cmdMAX_INPUT_SIZE
  ∧ terminated (cInputString (prvUARTCommandConsoleTask fuel rx (power_on s)).2) = false.
Proof.
  rewrite task_run. apply serve_fault, invariant_log, invariant_power_on.
Qed.

(** X13.  The turn of a terminator on a line that is not full, with an
    interpreter that stops after [n] more: the trace is the echo, the new
    line, the calls and transmissions of the dispatch loop and the end of
    output message, in this order, and the interpreter is left as [n + 1]
    calls leave it. *)
Theorem terminator_turn n fuel c w :
  invariant w → is_terminator c → ucInputIndex w < cmdMAX_INPUT_SIZE →
  has_more n (cli w) (dispatched_line (stored w) (cLastInputString w)) (pcOutputString w) →
  (n < fuel)%nat →
  ∃ w', iteration fuel (Some c) w = (Ok tt, w')
      ∧ uart w'
        = uart w ++ reception c
          ++ transmission pcNewLine (strlen pcNewLine)
          ++ dispatch_trace (dispatched_line (stored w) (cLastInputString w))
               (chunks (S n) (cli w) (dispatched_line (stored w) (cLastInputString w))
                  (pcOutputString w))
          ++ transmission pcEndOfOutputMessage (strlen pcEndOfOutputMessage)
      ∧ (cli w', pcOutputString w')
        = after_calls (S n) (cli w) (dispatched_line (stored w) (cLastInputString w))
            (pcOutputString w).
Proof.
  intros Hw Hc%Is_true_true Hi Hmore Hfuel.
  destruct (invariant_inv w Hw) as (line & last & o & s & tr & -> & Hwf).
  rewrite stored_typing in *.
  cbn [typing ucInputIndex cLastInputString pcOutputString cli uart] in *.
  rewrite iteration_run, Hc, log_typing.
  rewrite (end_of_line_run n) by (done || unfold capacity; lia).
  eexists. split; [done|]. cbn [typing uart cli pcOutputString].
  split; [by rewrite <- !app_assoc|]. by destruct (after_calls _ _ _ _).
Qed.

(** X15.  The wait of [prvSendBuffer] is the largest number of whole ticks
    within 100 ms (none when a tick is longer than that). *)
Theorem transmit_wait_within_100ms :
  0 < portTICK_PERIOD_MS →
  0 ≤ xBlockMax100ms
  ∧ xBlockMax100ms * portTICK_PERIOD_MS ≤ 100 < (xBlockMax100ms + 1) * portTICK_PERIOD_MS.
Proof.
  intros H. unfold xBlockMax100ms.
  pose proof (Z.mul_div_le 100 portTICK_PERIOD_MS H).
  pose proof (Z.mul_succ_div_gt 100 portTICK_PERIOD_MS H).
  pose proof (Z.div_pos 100 portTICK_PERIOD_MS). lia.
Qed.

(** X14.  Terminators received one after another on the empty input line,
    CR and LF in any order, hand the interpreter nothing but the line
    dispatched last, and do not fault. *)
Theorem terminators_only_repeat fuel cs : ∀ w,
  invariant w → ucInputIndex w = 0 → Forall (λ c, is_terminator c) cs →
  ∃ k, commands (uart (serve fuel (Some <$> cs) w).2)
       = commands (uart w) ++ replicate k (c_string (cLastInputString w))
     ∧ ((serve fuel (Some <$> cs) w).1 = Ok tt
        ∨ (serve fuel (Some <$> cs) w).1 = OutOfFuel).
Proof.
  induction cs as [|c cs IH]; intros w Hw Hi Hcs.
  - exists 0%nat. cbn [fmap list_fmap serve snd fst replicate].
    rewrite app_nil_r. split; [done|by left].
  - apply Forall_cons in Hcs as [Hc%Is_true_true Hcs].
    destruct (invariant_inv w Hw) as (line & last & o & s & tr & -> & Hwf).
    assert (line = []) as ->.
    { cbn [typing ucInputIndex] in Hi. destruct line; [done|]. cbn [length] in Hi. lia. }
    cbn [fmap list_fmap serve]. unfold bind.
    change (list_fmap ascii (option ascii) Some cs) with (Some <$> cs).
    rewrite iteration_run, Hc, log_typing.
    destruct (end_of_line_any fuel [] last o s (tr ++ reception c) Hwf)
      as (r & w' & k & -> & Hcmd & _ & Hr).
    rewrite commands_app, commands_reception, app_nil_r in Hcmd.
    cbn [dispatched_line typing cLastInputString uart] in *.
    destruct r as [[]|f|].
    + destruct Hr as (_ & Hlen & HL & o' & s' & tr' & ->).
      destruct (IH (typing [] (c_string last ++ NUL :: drop (length (c_string last) + 1) last)
                      o' s' tr')) as (k' & Hcmd' & Hr'); [|done|done|].
      { apply invariant_typing, well_formed_remembered; (done || apply Hwf). }
      exists (k + k')%nat. split; [|done].
      rewrite Hcmd'. cbn [typing uart cLastInputString] in *.
      rewrite c_string_app_NUL, Hcmd, replicate_add by done. by rewrite app_assoc.
    + destruct Hr as (_ & Hfull & _). by rewrite capacity_50 in Hfull.
    + exists k. split; [done|by right].
Qed.

(** X16.  The turn of a terminator on a line that is not full, with an
    interpreter that stops after [n] more: the turn completes, and behind
    it cLastInputString holds the line that was dispatched (the typed line,
    or the last line again when none was typed) as a string with its NUL,
    ucInputIndex is 0 and every byte of cInputString is zero. *)
Theorem terminator_remembers_and_clears n fuel c w :
  invariant w → is_terminator c → ucInputIndex w < cmdMAX_INPUT_SIZE →
  has_more n (cli w) (dispatched_line (stored w) (cLastInputString w)) (pcOutputString w) →
  (n < fuel)%nat →
  (iteration fuel (Some c) w).1 = Ok tt
  ∧ c_string (cLastInputString (iteration fuel (Some c) w).2)
    = dispatched_line (stored w) (cLastInputString w)
  ∧ terminated (cLastInputString (iteration fuel (Some c) w).2)
  ∧ length (cLastInputString (iteration fuel (Some c) w).2)
    = Z.to_nat cmdMAX_INPUT_SIZE
  ∧ ucInputIndex (iteration fuel (Some c) w).2 = 0
  ∧ cInputString (iteration fuel (Some c) w).2
    = replicate (Z.to_nat cmdMAX_INPUT_SIZE) NUL.
Proof.
  intros Hw Hc%Is_true_true Hi Hmore Hfuel.
  destruct (invariant_inv w Hw) as (line & last & o & s & tr & -> & Hwf).
  rewrite stored_typing in *.
  cbn [typing ucInputIndex cLastInputString pcOutputString cli uart] in *.
  assert (length line < capacity)%nat as Hlen by (unfold capacity; lia).
  set (L := dispatched_line line last) in *.
  assert (Forall printable L ∧ (length L < capacity)%nat) as [HL HLlen].
  { destruct Hwf as [Hl _ Hsz Ht Hp]. subst L. destruct line; [|done].
    split; [done|]. rewrite <- Hsz. by apply terminated_length. }
  rewrite iteration_run, Hc, log_typing.
  rewrite (end_of_line_run n) by done. fold L.
  cbn [fst snd typing ucInputIndex cInputString cLastInputString].
  split; [done|]. split; [by apply c_string_app_NUL|].
  split; [by apply terminated_app_NUL|]. split; [|done].
  destruct Hwf as [_ _ Hsz _ _].
  rewrite length_app. cbn [length]. rewrite length_drop, Hsz.
  unfold capacity in *. lia.
Qed.

End Console_more.

(** * The handlers and the task on the bench *)

Lemma three_parameter_echo_cycle_witness :
  ∃ buf',
    Commands.responses (@Commands.prvThreeParameterEchoCommand (bench_services 3)) 4 0
      (replicate 40 "x"%char) 40 ["a"; "b"; "c"]%char
    = Commands.Returns
        ([(Commands.three_parameters_header, pdPASS);
          (["1"; ":"; " "; "a"; CR; LF]%char, pdTRUE);
          (["2"; ":"; " "; "b"; CR; LF]%char, pdTRUE);
          (["3"; ":"; " "; "c"; CR; LF]%char, pdFALSE)], 0, buf').
Proof.
  destruct (@three_parameter_echo_cycle (bench_services 3) ["a"; "b"; "c"]%char
              (replicate 40 "x"%char) 40%nat
              ["a"; "b"; "c"]%char 1%nat ["b"; "c"]%char 1%nat ["c"]%char 1%nat)
    as (buf' & E & _); try reflexivity; try (vm_compute; lia).
  exists buf'. exact E.
Defined.

Lemma three_parameter_echo_asserts_witness :
  Commands.responses (@Commands.prvThreeParameterEchoCommand (bench_services 2)) 4 0
    (replicate 40 "x"%char) 40 ["a"; "b"]%char
  = Commands.Traps Commands.AssertFailed.
Proof.
  refine (proj2 (@three_parameter_echo_asserts (bench_services 2)
                   (λ i, (drop (i - 1) ["a"; "b"]%char, 1%nat)) 2
                   ["a"; "b"]%char (replicate 40 "x"%char) 40%nat _ _ _ _ _ _)).
  - lia.
  - intros i Hi. assert (i = 1 ∨ i = 2)%nat as [-> | ->] by lia; reflexivity.
  - reflexivity.
  - vm_compute. lia.
  - vm_compute. lia.
  - intros i Hi. assert (i = 1 ∨ i = 2)%nat as [-> | ->] by lia; vm_compute; lia.
Defined.

Lemma parameter_echo_cycle_witness :
  ∃ buf',
    Commands.responses (@Commands.prvParameterEchoCommand (bench_services 2)) 4 0
      (replicate 40 "x"%char) 40 ["a"; "b"]%char
    = Commands.Returns
        ([(Commands.parameters_header, pdPASS);
          (["1"; ":"; " "; "a"; CR; LF]%char, pdTRUE);
          (["2"; ":"; " "; "b"; CR; LF]%char, pdTRUE);
          ([], pdFALSE)], 0, buf').
Proof.
  destruct (@parameter_echo_cycle (bench_services 2)
              (λ i, (drop (i - 1) ["a"; "b"]%char, 1%nat)) 2
              ["a"; "b"]%char (replicate 40 "x"%char) 40%nat)
    as (buf' & E & _).
  - intros i Hi. assert (i = 1 ∨ i = 2)%nat as [-> | ->] by lia; reflexivity.
  - reflexivity.
  - vm_compute. lia.
  - vm_compute. lia.
  - intros i Hi. assert (i = 1 ∨ i = 2)%nat as [-> | ->] by lia; vm_compute; lia.
  - vm_compute. reflexivity.
  - exists buf'. exact E.
Defined.

Lemma three_parameter_echo_returns_witness :
  ∃ l' b xReturn,
    @Commands.prvThreeParameterEchoCommand (bench_services 3) 3
      (replicate 40 "x"%char) 40 ["a"; "b"; "c"]%char
    = Commands.Returns (l', b, xReturn)
    ∧ l' = 0 ∧ xReturn = pdFALSE ∧ terminated b.
Proof.
  eexists _, _, _. split; [reflexivity|].
  destruct (@three_parameter_echo_returns (bench_services 3) 3
              (replicate 40 "x"%char) 40%nat ["a"; "b"; "c"]%char _ _ _
              ltac:(lia) eq_refl) as (_ & _ & Ht & _).
  split; [reflexivity|]. split; [reflexivity|exact Ht].
Defined.

Lemma parameter_echo_returns_witness :
  ∃ l' b xReturn,
    @Commands.prvParameterEchoCommand (bench_services 1) 2
      (replicate 40 "x"%char) 40 ["a"]%char
    = Commands.Returns (l', b, xReturn)
    ∧ l' = 0 ∧ xReturn = pdFALSE ∧ terminated b.
Proof.
  eexists _, _, _. split; [reflexivity|].
  destruct (@parameter_echo_returns (bench_services 1) 2
              (replicate 40 "x"%char) 40%nat ["a"]%char _ _ _
              ltac:(lia) eq_refl) as (_ & _ & Ht & _).
  split; [reflexivity|]. split; [reflexivity|exact Ht].
Defined.

Lemma echo_line_overflows_witness :
  @Commands.prvParameterEchoCommand (bench_services 1) 1
    (replicate 6 "x"%char) 6 ["a"]%char
  = Commands.Traps (Commands.OutOfBounds WriteOutOfBounds).
Proof.
  refine (proj1 (@echo_line_overflows (bench_services 1) 1 ["a"]%char 1%nat
                   (replicate 6 "x"%char) 6%nat ["a"]%char _ _ _)).
  - lia.
  - reflexivity.
  - vm_compute. lia.
Defined.

Lemma stats_commands_return_one_listing_witness :
  (∃ b, @Commands.prvTaskStatsCommand (bench_services 0) (replicate 120 "x"%char) 120 []
        = Commands.Returns (b, pdFALSE)
      ∧ c_string b
        = Commands.pcHeader_task_stats ++ list_ascii_of_string "CLI R 1")
  ∧ (∃ b, @Commands.prvRunTimeStatsCommand (bench_services 0) (replicate 94 "x"%char) 94 []
          = Commands.Returns (b, pdFALSE)
        ∧ c_string b
          = Commands.pcHeader_run_time_stats ++ list_ascii_of_string "CLI 10 99%").
Proof.
  split.
  - destruct (proj1 (@stats_commands_return_one_listing (bench_services 0)
                       (replicate 120 "x"%char) 120%nat [])
                ltac:(vm_compute; lia))
      as (b & E & Hs & _).
    exists b. split; [exact E|exact Hs].
  - destruct (proj2 (@stats_commands_return_one_listing (bench_services 0)
                       (replicate 94 "x"%char) 94%nat [])
                ltac:(vm_compute; lia))
      as (b & E & Hs & _).
    exists b. split; [exact E|exact Hs].
Defined.

Lemma stats_commands_overflow_witness :
  @Commands.prvTaskStatsCommand (bench_services 0) (replicate 94 "x"%char) 94 []
  = Commands.Traps (Commands.OutOfBounds WriteOutOfBounds)
  ∧ @Commands.prvRunTimeStatsCommand (bench_services 0) (replicate 90 "x"%char) 90 []
    = Commands.Traps (Commands.OutOfBounds WriteOutOfBounds).
Proof.
  split.
  - refine (proj1 (@stats_commands_overflow (bench_services 0)
                     (replicate 94 "x"%char) 94%nat []) _).
    vm_compute. lia.
  - refine (proj2 (@stats_commands_overflow (bench_services 0)
                     (replicate 90 "x"%char) 90%nat []) _).
    vm_compute. lia.
Defined.

Lemma line_editor_refines_spec_witness :
  stored (@serve (bench 0) 1 (Some <$> ["a"; "007"; "b"; BS; "c"]%char)
            (run_bench 0 1 []).2).2
  = ["a"; "c"]%char.
Proof.
  destruct (@line_editor_refines_spec (bench 0) 1 ["a"; "007"; "b"; BS; "c"]%char
              (run_bench 0 1 []).2) as (_ & Hs & _).
  - concrete_invariant.
  - repeat constructor.
  - rewrite Hs. reflexivity.
Defined.

Lemma terminator_faults_iff_line_full_witness :
  (@iteration (bench 0) 1 (Some LF) (run_bench 0 1 (replicate 50 (Some "x"%char))).2).1
  = Fault ReadOutOfBounds.
Proof.
  destruct (@terminator_faults_iff_line_full (bench 0) 1 LF
              (run_bench 0 1 (replicate 50 (Some "x"%char))).2
              ltac:(concrete_invariant) I) as (_ & _ & H & _).
  apply (H 0%nat).
  - vm_compute. reflexivity.
  - lia.
  - vm_compute. reflexivity.
Defined.

(** On the full line, an interpreter that does not answer pdFALSE within
    the fuel keeps the task inside the dispatch loop: the copy of line 428
    is not reached. *)
Lemma full_line_waits_for_the_interpreter :
  (@iteration (bench 1) 1 (Some LF) (run_bench 1 1 (replicate 50 (Some "x"%char))).2).1
  = OutOfFuel.
Proof. vm_compute. reflexivity. Qed.

Lemma run_faults_only_on_full_line_witness :
  ucInputIndex (run_bench 0 1 (replicate 50 (Some "x"%char) ++ [Some CR; Some "y"%char])).2
  = cmdMAX_INPUT_SIZE.
Proof.
  destruct (@run_faults_only_on_full_line (bench 0) 1
              (replicate 50 (Some "x"%char) ++ [Some CR; Some "y"%char]) 0%nat
              ReadOutOfBounds) as (_ & Hi & _).
  - vm_compute. reflexivity.
  - exact Hi.
Defined.

Lemma terminator_turn_witness :
  ∃ w', @iteration (bench 1) 2 (Some CR) (run_bench 1 2 (keys "go")).2 = (Ok tt, w')
      ∧ commands (uart w') = [["g"; "o"]%char; ["g"; "o"]%char].
Proof.
  destruct (@terminator_turn (bench 1) 1 2 CR (run_bench 1 2 (keys "go")).2)
    as (w' & E & Htr & _).
  - concrete_invariant.
  - exact I.
  - vm_compute. reflexivity.
  - vm_compute. repeat split; discriminate.
  - lia.
  - exists w'. split; [exact E|]. rewrite Htr. vm_compute. reflexivity.
Defined.

Lemma terminators_only_repeat_witness :
  ∃ k, commands (uart (@serve (bench 0) 1 (Some <$> [LF; CR; LF])
                         (run_bench 0 1 (keys "ab" ++ [Some CR])).2).2)
       = [["a"; "b"]%char] ++ replicate k ["a"; "b"]%char.
Proof.
  destruct (@terminators_only_repeat (bench 0) 1 [LF; CR; LF]
              (run_bench 0 1 (keys "ab" ++ [Some CR])).2) as (k & Hk & _).
  - concrete_invariant.
  - reflexivity.
  - repeat constructor.
  - exists k. rewrite Hk. vm_compute. reflexivity.
Defined.

Lemma transmit_wait_within_100ms_witness :
  @xBlockMax100ms (bench 0) * 1 ≤ 100 < (@xBlockMax100ms (bench 0) + 1) * 1.
Proof.
  apply (@transmit_wait_within_100ms (bench 0)). reflexivity.
Defined.

Lemma terminator_remembers_and_clears_witness :
  c_string (cLastInputString
              (@iteration (bench 0) 1 (Some CR) (run_bench 0 1 (keys "ab")).2).2)
  = ["a"; "b"]%char
  ∧ ucInputIndex (@iteration (bench 0) 1 (Some CR) (run_bench 0 1 (keys "ab")).2).2 = 0
  ∧ cInputString (@iteration (bench 0) 1 (Some CR) (run_bench 0 1 (keys "ab")).2).2
    = replicate 50 NUL.
Proof.
  destruct (@terminator_remembers_and_clears (bench 0) 0 1 CR
              (run_bench 0 1 (keys "ab")).2)
    as (_ & Hlast & _ & _ & Hi & Hbuf).
  - concrete_invariant.
  - exact I.
  - vm_compute. reflexivity.
  - vm_compute. reflexivity.
  - lia.
  - rewrite Hlast, Hi, Hbuf. vm_compute. repeat split.
Defined.
